(* ===================================================================== *)
(* s7-200smart-v-binary-viewer: a shallow embedding of main.go           *)
(*                                                                       *)
(* The byte/bit codec, the PLC session (connect, disconnect, two-tier    *)
(* read) and the start/stop controlled polling loop of PLCBinaryViewer.  *)
(* ===================================================================== *)

From Stdlib Require Import ZArith Lia.
From Stdlib.Strings Require Import String Byte.
From Equations Require Import Equations.
From stdpp Require Import base tactics option list.

Local Open Scope Z_scope.

(* --------------------------------------------------------------------- *)
(* Bytes                                                                 *)
(* --------------------------------------------------------------------- *)

(** A Go [byte] is an unsigned 8-bit value; [Byte.byte] has exactly the
    256 inhabitants.  [int(b)] is its value, between 0 and 255. *)
Definition byte_val (b : byte) : Z := Z.of_N (Byte.to_N b).

(** [bytes[i]] for an index the surrounding guard has already checked
    to be in range (Go panics on an index out of range; no read below
    is reachable with one). *)
Definition byte_at (bytes : list byte) (i : nat) : byte := nth i bytes x00.

(* --------------------------------------------------------------------- *)
(* Byte/Bit codec                                                        *)
(* --------------------------------------------------------------------- *)

Module Codec.

(** The loop of [convertBytesTo16BitInts] (main.go 126-136):
    [for i := 0; i < len(bytes); i += 2], appending one value per turn.
    The index starts at 0 and only grows, so it is a natural number; all
    values stay below 2^16, far from the 64-bit bound of Go's [int]. *)
Equations? words_loop (bytes : list byte) (i : nat) (result : list Z) : list Z
  by wf (length bytes - i)%nat lt :=
  words_loop bytes i result with decide (i < length bytes)%nat := {
    | left _ =>
        if decide (i + 1 < length bytes)%nat then
          let value := Z.lor (Z.shiftl (byte_val (byte_at bytes i)) 8)
                             (byte_val (byte_at bytes (i + 1))) in
          words_loop bytes (i + 2) (result ++ [value])
        else
          let value := byte_val (byte_at bytes i) in
          words_loop bytes (i + 2) (result ++ [value]);
    | right _ => result }.
Proof. all: lia. Qed.

(** [convertBytesTo16BitInts] (main.go 124-138); [var result []int]
    starts as the nil slice. *)
Definition convertBytesTo16BitInts (bytes : list byte) : list Z :=
  words_loop bytes 0 [].

(** [(b>>(7-j))&1 == 1] (main.go 183, and 345 for the grid). *)
Definition bit_of (b : byte) (j : nat) : bool :=
  Z.land (Z.shiftr (byte_val b) (7 - Z.of_nat j)) 1 =? 1.

(** [bits[bitPos] = v]: an assignment through an index; Go panics when
    the index is not below [len(bits)], written here as [None]. *)
Definition store_bit (bits : list bool) (bitPos : nat) (v : bool)
  : option (list bool) :=
  if decide (bitPos < length bits)%nat then Some (<[bitPos := v]> bits)
  else None.

(** The inner loop [for j := 0; j < 8; j++] (main.go 181-184). *)
Definition byte_loop (i : nat) (b : byte) (bits : list bool)
  : option (list bool) :=
  foldl (fun acc j => bs ← acc; store_bit bs (i * 8 + j) (bit_of b j))
        (Some bits) (seq 0 8).

(** The outer loop [for i, b := range data] (main.go 180-185). *)
Fixpoint range_loop (data : list byte) (i : nat) (bits : list bool)
  : option (list bool) :=
  match data with
  | [] => Some bits
  | b :: rest => bs ← byte_loop i b bits; range_loop rest (S i) bs
  end.

(** The bit decoding of a poll tick (main.go 177-185):
    [totalBits := bytesToRead * 8; bits := make([]bool, totalBits)]
    followed by the two loops.  [make] with a negative length panics. *)
Definition toBits (bytesToRead : Z) (data : list byte) : option (list bool) :=
  let totalBits := bytesToRead * 8 in
  if totalBits <? 0 then None
  else range_loop data 0 (replicate (Z.to_nat totalBits) false).

(** Specification side of the round trip: regrouping booleans eight at
    a time, most significant bit first.  The program has no such
    function; it is the inverse the decoding is compared with. *)
Definition bits_value (bs : list bool) : N :=
  foldl (fun acc (b : bool) => (2 * acc + (if b then 1 else 0))%N) 0%N bs.

Definition byte_of_bits (bs : list bool) : byte :=
  default x00 (Byte.of_N (bits_value bs)).

Fixpoint regroup (bits : list bool) : list byte :=
  match bits with
  | b7 :: b6 :: b5 :: b4 :: b3 :: b2 :: b1 :: b0 :: rest =>
      byte_of_bits [b7; b6; b5; b4; b3; b2; b1; b0] :: regroup rest
  | _ => []
  end.

(** Specification side of the word round trip: a 16-bit value split
    into its high and its low byte.  The program has no such function. *)
Definition byte_of_Z (z : Z) : byte := default x00 (Byte.of_N (Z.to_N z)).

Definition split_word (w : Z) : list byte :=
  [byte_of_Z (Z.shiftr w 8); byte_of_Z (Z.land w 255)].

Definition split_words (ws : list Z) : list byte := ws ≫= split_word.

End Codec.

(* --------------------------------------------------------------------- *)
(* The Go runtime as far as main.go uses it                              *)
(* --------------------------------------------------------------------- *)

(** What a call can come to: it returns, it waits for ever (a goroutine
    that locks a [sync.Mutex] it already holds: the mutex is not
    reentrant and nobody else will unlock it), or it panics. *)
Inductive Outcome (S A : Type) : Type :=
| Done (a : A) (s : S)
| Blocked (s : S)
| Panicked (msg : string) (s : S).
Arguments Done {S A} a s.
Arguments Blocked {S A} s.
Arguments Panicked {S A} msg s.

Definition Go (S A : Type) : Type := S -> Outcome S A.

Definition ret {S A} (a : A) : Go S A := fun s => Done a s.

Definition bind {S A B} (m : Go S A) (k : A -> Go S B) : Go S B :=
  fun s =>
    match m s with
    | Done a s' => k a s'
    | Blocked s' => Blocked s'
    | Panicked msg s' => Panicked msg s'
    end.

Definition gets {S A} (f : S -> A) : Go S A := fun s => Done (f s) s.
Definition modify {S} (f : S -> S) : Go S unit := fun s => Done tt (f s).
Definition panic {S A} (msg : string) : Go S A := fun s => Panicked msg s.

Declare Scope go_scope.
Delimit Scope go_scope with go.
Notation "x <- m ;; k" := (bind m (fun x => k))
  (at level 20, m at level 99, k at level 200, only parsing) : go_scope.
Notation "m ;; k" := (bind m (fun _ => k))
  (at level 100, k at level 200, only parsing, right associativity) : go_scope.

(* --------------------------------------------------------------------- *)
(* Session manager and poller                                            *)
(* --------------------------------------------------------------------- *)

Module Viewer.

(** A Go [error] is represented by its [Error()] text. *)
Definition error : Type := string.

Definition defaultRack : Z := 0.
Definition defaultSlot : Z := 1.

(** [gos7.TCPClientHandler] with the fields [connectPLC] sets; times in
    milliseconds.  [hid] stands for the identity of the object that
    [NewTCPClientHandler] allocates. *)
Record TCPClientHandler : Type := mkHandler {
  Address : string;
  Rack : Z;
  Slot : Z;
  Timeout : Z;
  IdleTimeout : Z;
  hid : nat }.

(** [gos7.NewClient(handler)]. *)
Inductive Client : Type := NewClient (h : TCPClientHandler).

(** What one transport read did: the elements of the caller's buffer it
    overwrote, and the error it returned.  A Go callee receives the
    slice header by value: it can store into the elements, it cannot
    change the caller's [len(buffer)]. *)
Record Reply : Type := mkReply {
  writes : list (nat * byte);
  err : option error }.

(** gos7 and the PLC behind it are outside the repository: the four
    operations the viewer calls, over a state [W] of the outside world. *)
Class Transport (W : Type) : Type := {
  Connect : TCPClientHandler -> W -> option error * W;
  Close : TCPClientHandler -> W -> W;
  AGReadDB : Client -> Z -> Z -> Z -> list byte -> W -> Reply * W;
  AGReadMB : Client -> Z -> Z -> list byte -> W -> Reply * W }.

(** What the outside world sees, in order. *)
Inductive Event : Type :=
| EvConnect (h : TCPClientHandler)
| EvClose (h : TCPClientHandler)
| EvSleep (ms : Z)
| EvReadDB (dbNumber start size : Z)
| EvReadMB (start size : Z)
| EvCloseChan (c : nat)
| EvLog (msg : string)
| EvUpdate (fn : nat) (bits : list bool).

(** [type PLCBinaryViewer struct] (main.go 26-32).  [stopChan] is the
    address of a channel in the table of channels; [mu] is true while
    the mutex is held. *)
Record PLCBinaryViewer : Type := mkViewer {
  client : option Client;
  handler : option TCPClientHandler;
  running : bool;
  stopChan : nat;
  mu : bool }.

(** A goroutine launched by [startMonitoring] with the values its
    closure captured; [exited] once it has returned.  Its ticker fires
    once a second; when a tick is taken is the scheduler's choice. *)
Record Loop : Type := mkLoop {
  l_stopChan : nat;
  l_startAddr : Z;
  l_len : Z;
  l_updateFn : option nat;
  l_exited : bool }.

(** The whole machine: the viewer, the channels made so far ([true] for
    a closed one), the loop goroutines, the number of handler objects
    allocated, the outside world and the trace of events. *)
Record Machine (W : Type) : Type := mkMachine {
  p : PLCBinaryViewer;
  chans : list bool;
  loops : list Loop;
  handlers : nat;
  world : W;
  trace : list Event }.
Arguments mkMachine {W}.
Arguments p {W}.
Arguments chans {W}.
Arguments loops {W}.
Arguments handlers {W}.
Arguments world {W}.
Arguments trace {W}.

Definition set_client (c : option Client) (v : PLCBinaryViewer) :=
  mkViewer c (handler v) (running v) (stopChan v) (mu v).
Definition set_handler (h : option TCPClientHandler) (v : PLCBinaryViewer) :=
  mkViewer (client v) h (running v) (stopChan v) (mu v).
Definition set_running (r : bool) (v : PLCBinaryViewer) :=
  mkViewer (client v) (handler v) r (stopChan v) (mu v).
Definition set_stopChan (c : nat) (v : PLCBinaryViewer) :=
  mkViewer (client v) (handler v) (running v) c (mu v).
Definition set_mu (b : bool) (v : PLCBinaryViewer) :=
  mkViewer (client v) (handler v) (running v) (stopChan v) b.

Definition with_p {W} (f : PLCBinaryViewer -> PLCBinaryViewer) (m : Machine W) :=
  mkMachine (f (p m)) (chans m) (loops m) (handlers m) (world m) (trace m).
Definition with_chans {W} (f : list bool -> list bool) (m : Machine W) :=
  mkMachine (p m) (f (chans m)) (loops m) (handlers m) (world m) (trace m).
Definition with_loops {W} (f : list Loop -> list Loop) (m : Machine W) :=
  mkMachine (p m) (chans m) (f (loops m)) (handlers m) (world m) (trace m).
Definition with_handlers {W} (f : nat -> nat) (m : Machine W) :=
  mkMachine (p m) (chans m) (loops m) (f (handlers m)) (world m) (trace m).
Definition with_world {W} (w : W) (m : Machine W) :=
  mkMachine (p m) (chans m) (loops m) (handlers m) w (trace m).
Definition emit {W} (e : Event) (m : Machine W) :=
  mkMachine (p m) (chans m) (loops m) (handlers m) (world m) (trace m ++ [e]).

(** The result of a read, [(buffer, nil)] or [(nil, err)]. *)
Inductive ReadResult : Type :=
| ReadOk (data : list byte)
| ReadErr (e : error).

(** The two cases of the loop's [select]. *)
Inductive Select : Type := RecvStop | RecvTick.

Local Open Scope go_scope.

Section Methods.
Context {W : Type} `{Transport W}.

Local Abbreviation M := (Go (Machine W)).

(** [p.mu.Lock()].  The methods below run one at a time, each from a
    state with the mutex free, so a held mutex is held by the caller. *)
Definition Lock : M unit :=
  fun m => if mu (p m) then Blocked m else Done tt (with_p (set_mu true) m).

(** [p.mu.Unlock()]. *)
Definition Unlock : M unit :=
  fun m =>
    if mu (p m) then Done tt (with_p (set_mu false) m)
    else Panicked "sync: unlock of unlocked mutex" m.

Definition log (e : Event) : M unit := modify (emit e).

(** [NewPLCBinaryViewer] (main.go 34-38): a viewer with a first
    channel, in a world [w]. *)
Definition NewPLCBinaryViewer (w : W) : Machine W :=
  mkMachine (mkViewer None None false 0 false) [false] [] 0 w [].

(** [gos7.NewTCPClientHandler(ip, rack, slot)] and the two timeouts
    (main.go 51-53). *)
Definition NewTCPClientHandler (ip : string) (rack slot : Z)
  : M TCPClientHandler :=
  n <- gets handlers ;;
  modify (with_handlers S) ;;
  ret (mkHandler ip rack slot 5000 60000 n).

Definition handler_Connect (h : TCPClientHandler) : M (option error) :=
  w <- gets world ;;
  let '(e, w') := Connect h w in
  modify (with_world w') ;;
  log (EvConnect h) ;;
  ret e.

Definition handler_Close (h : TCPClientHandler) : M unit :=
  w <- gets world ;;
  modify (with_world (Close h w)) ;;
  log (EvClose h).

(** [disconnectPLC] (main.go 65-77). *)
Definition disconnectPLC : M unit :=
  Lock ;;
  c <- gets (fun m => client (p m)) ;;
  match c with
  | Some _ =>
      h <- gets (fun m => handler (p m)) ;;
      match h with
      | Some h => handler_Close h
      | None => ret tt
      end ;;
      modify (with_p (set_client None)) ;;
      modify (with_p (set_handler None))
  | None => ret tt
  end ;;
  Unlock.

(** [connectPLC] (main.go 40-63); the deferred [Unlock] runs when the
    body returns. *)
Definition connectPLC (ip : string) : M (option error) :=
  Lock ;;
  r <- (c <- gets (fun m => client (p m)) ;;
        match c with
        | Some _ => disconnectPLC ;; log (EvSleep 100)
        | None => ret tt
        end ;;
        h <- NewTCPClientHandler ip defaultRack defaultSlot ;;
        e <- handler_Connect h ;;
        match e with
        | Some e => ret (Some ("连接PLC失败: " ++ e)%string)
        | None =>
            modify (with_p (set_handler (Some h))) ;;
            modify (with_p (set_client (Some (NewClient h)))) ;;
            ret None
        end) ;;
  Unlock ;;
  ret r.

(** [make([]byte, size)]: a zeroed buffer; a negative size panics. *)
Definition make_bytes (size : Z) : M (list byte) :=
  if size <? 0 then panic "makeslice: len out of range"
  else ret (replicate (Z.to_nat size) x00).

(** The stores of a transport call into the caller's buffer.  gos7
    copies at most [size] bytes to the front of the buffer; a store past
    its end (a panic inside the library) leaves the buffer as it is. *)
Definition store (buffer : list byte) (ws : list (nat * byte)) : list byte :=
  foldl (fun b w => <[w.1 := w.2]> b) buffer ws.

(** [client.AGReadDB(dbNumber, start, size, buffer)]: the buffer after
    the call and the error. *)
Definition client_AGReadDB (c : Client) (dbNumber start size : Z)
    (buffer : list byte) : M (list byte * option error) :=
  w <- gets world ;;
  let '(r, w') := AGReadDB c dbNumber start size buffer w in
  modify (with_world w') ;;
  log (EvReadDB dbNumber start size) ;;
  ret (store buffer (writes r), err r).

(** [client.AGReadMB(start, size, buffer)]. *)
Definition client_AGReadMB (c : Client) (start size : Z)
    (buffer : list byte) : M (list byte * option error) :=
  w <- gets world ;;
  let '(r, w') := AGReadMB c start size buffer w in
  modify (with_world w') ;;
  log (EvReadMB start size) ;;
  ret (store buffer (writes r), err r).

(** [readVArea] (main.go 79-98). *)
Definition readVArea (startByte size : Z) : M ReadResult :=
  Lock ;;
  client <- gets (fun m => client (p m)) ;;
  Unlock ;;
  match client with
  | None => ret (ReadErr "PLC未连接"%string)
  | Some client =>
      buffer <- make_bytes size ;;
      r <- client_AGReadDB client 1 startByte size buffer ;;
      match r.2 with
      | Some err =>
          r2 <- client_AGReadMB client startByte size r.1 ;;
          match r2.2 with
          | Some err2 =>
              ret (ReadErr ("读取V区失败: " ++ err ++ ", MB方式失败: " ++ err2)%string)
          | None => ret (ReadOk r2.1)
          end
      | None => ret (ReadOk r.1)
      end
  end.

(** [readOnce] (main.go 101-121). *)
Definition readOnce (startAddress len : Z) : M ReadResult :=
  let bytesToRead := len in
  let bytesToRead := if bytesToRead <=? 0 then 1 else bytesToRead in
  let maxBytes := 80 in
  let bytesToRead := if bytesToRead >? maxBytes then maxBytes else bytesToRead in
  r <- readVArea startAddress bytesToRead ;;
  match r with
  | ReadErr err => ret (ReadErr err)
  | ReadOk data => ret (ReadOk data)
  end.

(** [make(chan bool)]: a new, open channel. *)
Definition make_chan : M nat :=
  c <- gets (fun m => length (chans m)) ;;
  modify (with_chans (fun cs => cs ++ [false])) ;;
  ret c.

(** [close(c)]: closing a closed channel panics. *)
Definition close_chan (c : nat) : M unit :=
  cs <- gets chans ;;
  match cs !! c with
  | Some false => modify (with_chans (<[c := true]>)) ;; log (EvCloseChan c)
  | Some true => panic "close of closed channel"
  | None => panic "close of nil channel"
  end.

(** [go func(...) {...}(startAddress, length, updateFunc)]. *)
Definition go_loop (l : Loop) : M unit :=
  modify (with_loops (fun ls => ls ++ [l])).

(** [startMonitoring] (main.go 140-193); [updateFunc] is [None] for a
    nil function. *)
Definition startMonitoring (startAddress len : Z) (updateFunc : option nat)
  : M unit :=
  Lock ;;
  r <- gets (fun m => running (p m)) ;;
  if r then Unlock ;; ret tt
  else
    modify (with_p (set_running true)) ;;
    stopChan <- make_chan ;;
    modify (with_p (set_stopChan stopChan)) ;;
    Unlock ;;
    go_loop (mkLoop stopChan startAddress len updateFunc false).

(** [stopMonitoring] (main.go 195-202). *)
Definition stopMonitoring : M unit :=
  Lock ;;
  r <- gets (fun m => running (p m)) ;;
  (if r then
     c <- gets (fun m => stopChan (p m)) ;;
     close_chan c ;;
     modify (with_p (set_running false))
   else ret tt) ;;
  Unlock.

(** The [case <-ticker.C] branch of the loop (main.go 159-189). *)
Definition loop_tick (l : Loop) : M unit :=
  let bytesToRead := l_len l in
  let bytesToRead := if bytesToRead <=? 0 then 1 else bytesToRead in
  let bytesToRead := if bytesToRead >? 4 then 4 else bytesToRead in
  r <- readVArea (l_startAddr l) bytesToRead ;;
  match r with
  | ReadErr err => log (EvLog ("读取数据失败: " ++ err)%string)
  | ReadOk data =>
      match Codec.toBits bytesToRead data with
      | None => panic "index out of range"
      | Some bits =>
          match l_updateFn l with
          | Some fn => log (EvUpdate fn bits)
          | None => ret tt
          end
      end
  end.

Definition exit_loop (l : Loop) : Loop :=
  mkLoop (l_stopChan l) (l_startAddr l) (l_len l) (l_updateFn l) true.

(** One turn of the [for { select {...} }] of loop goroutine [k]
    (main.go 155-191) for the case [sel] that the select takes.
    Nothing is ever sent on the stop channel, so [<-stopChan] can only
    be taken once the channel is closed; until then the goroutine stays
    in the select.  A goroutine that has returned does nothing. *)
Definition loop_turn (k : nat) (sel : Select) : M unit :=
  ls <- gets loops ;;
  match ls !! k with
  | None => ret tt
  | Some l =>
      if l_exited l then ret tt
      else
        match sel with
        | RecvStop =>
            cs <- gets chans ;;
            match cs !! l_stopChan l with
            | Some true => modify (with_loops (<[k := exit_loop l]>))
            | _ => ret tt
            end
        | RecvTick => loop_tick l
        end
  end.

(** The calls the presentation layer and the scheduler can make. *)
Inductive Op : Type :=
| OpConnect (ip : string)
| OpDisconnect
| OpReadOnce (startAddress len : Z)
| OpStart (startAddress len : Z) (updateFunc : option nat)
| OpStop
| OpTurn (k : nat) (sel : Select).

Definition run_op (o : Op) : M unit :=
  match o with
  | OpConnect ip => _ <- connectPLC ip ;; ret tt
  | OpDisconnect => disconnectPLC
  | OpReadOnce a l => _ <- readOnce a l ;; ret tt
  | OpStart a l f => startMonitoring a l f
  | OpStop => stopMonitoring
  | OpTurn k sel => loop_turn k sel
  end.

(** Running a sequence of calls, each to its return. *)
Fixpoint run_ops (os : list Op) : M unit :=
  match os with
  | [] => ret tt
  | o :: os => run_op o ;; run_ops os
  end.

(** The states the viewer can be in: a new viewer, then any call run
    to its return, and the outside world changing on its own. *)
Inductive reachable : Machine W -> Prop :=
| reach_new (w : W) : reachable (NewPLCBinaryViewer w)
| reach_op (m m' : Machine W) (o : Op) :
    reachable m -> run_op o m = Done tt m' -> reachable m'
| reach_world (m : Machine W) (w : W) :
    reachable m -> reachable (with_world w m).

(** The channel at address [c] has been made and is not closed. *)
Definition chan_open (cs : list bool) (c : nat) : Prop :=
  cs !! c = Some false.

#[export] Instance chan_open_dec (cs : list bool) (c : nat)
  : Decision (chan_open cs c).
Proof. unfold chan_open. apply _. Defined.

(** The active loops: the goroutines launched whose cancellation signal
    has not been fired. *)
Definition active (m : Machine W) : list Loop :=
  filter (fun l => chan_open (chans m) (l_stopChan l)) (loops m).

(** What a call that does not touch the poller leaves as it found it;
    it closes no channel either. *)
Definition same_poll (m m' : Machine W) : Prop :=
  running (p m') = running (p m)
  /\ stopChan (p m') = stopChan (p m)
  /\ mu (p m') = mu (p m)
  /\ chans m' = chans m
  /\ loops m' = loops m
  /\ (forall c : nat, EvCloseChan c ∈ trace m' -> EvCloseChan c ∈ trace m).

(** The invariant of the poller: between calls the mutex is free; every
    loop's channel has been made; a loop whose channel is open belongs
    to the current run and has not returned; while running the current
    channel is open; the active loops are one while running and none
    otherwise; only closed channels have a close event. *)
Definition poll_inv (m : Machine W) : Prop :=
  mu (p m) = false
  /\ (forall l : Loop, l ∈ loops m -> (l_stopChan l < length (chans m))%nat)
  /\ (forall l : Loop, l ∈ loops m -> chan_open (chans m) (l_stopChan l) ->
        running (p m) = true /\ l_stopChan l = stopChan (p m)
        /\ l_exited l = false)
  /\ (running (p m) = true -> chan_open (chans m) (stopChan (p m)))
  /\ length (active m) = (if running (p m) then 1 else 0)%nat
  /\ (forall c : nat, EvCloseChan c ∈ trace m -> chans m !! c = Some true).

(** The handlers closed so far, in order. *)
Definition closed_handlers (tr : list Event) : list TCPClientHandler :=
  omap (fun e => match e with EvClose h => Some h | _ => None end) tr.

(** What a call that does not touch the session leaves as it found it;
    it closes no handler either. *)
Definition same_session (m m' : Machine W) : Prop :=
  client (p m') = client (p m)
  /\ handler (p m') = handler (p m)
  /\ handlers m' = handlers m
  /\ closed_handlers (trace m') = closed_handlers (trace m).

(** The invariant of the session: client and handler are both nil, or
    the client wraps the handler, an allocated object that has not been
    closed; no handler is closed twice; closed handlers are allocated
    objects. *)
Definition session_inv (m : Machine W) : Prop :=
  match client (p m), handler (p m) with
  | None, None => True
  | Some c, Some h =>
      c = NewClient h /\ (hid h < handlers m)%nat
      /\ h ∉ closed_handlers (trace m)
  | _, _ => False
  end
  /\ NoDup (closed_handlers (trace m))
  /\ (forall h : TCPClientHandler,
        h ∈ closed_handlers (trace m) -> (hid h < handlers m)%nat).

(** The loops still running: the goroutines launched that have not
    returned, whether their cancellation signal has been fired or not. *)
Definition running_loops (m : Machine W) : list Loop :=
  filter (fun l => l_exited l = false) (loops m).

(** [startMonitoring] statement by statement (main.go 141-151), for
    runs in which two calls interleave: where a caller stands, with its
    local [stopChan] once it has made it. *)
Inductive StartPc : Type :=
| AtLock
| AtCheck
| AtUnlockReturn
| AtSetRunning
| AtMake
| AtSetStopChan (stopChan : nat)
| AtUnlock (stopChan : nat)
| AtGo (stopChan : nat)
| Returned.

(** The statements between [Lock] and [Unlock]. *)
Definition in_guard (pc : StartPc) : bool :=
  match pc with
  | AtCheck | AtUnlockReturn | AtSetRunning | AtMake
  | AtSetStopChan _ | AtUnlock _ => true
  | AtLock | AtGo _ | Returned => false
  end.

(** The arguments of a call of [startMonitoring]. *)
Record StartArgs : Type := mkStartArgs {
  s_startAddress : Z;
  s_length : Z;
  s_updateFunc : option nat }.

(** One statement of a caller of [startMonitoring]: the place it moves
    to and the machine after it.  [None] when the caller does not move:
    it waits at [Lock] for a held mutex, or it has returned (or the
    statement panics, as an [Unlock] of a free mutex would). *)
Definition start_step (c : StartArgs) (pc : StartPc) (m : Machine W)
  : option (StartPc * Machine W) :=
  match pc with
  | AtLock =>
      match Lock m with Done _ m' => Some (AtCheck, m') | _ => None end
  | AtCheck =>
      Some (if running (p m) then AtUnlockReturn else AtSetRunning, m)
  | AtUnlockReturn =>
      match Unlock m with Done _ m' => Some (Returned, m') | _ => None end
  | AtSetRunning => Some (AtMake, with_p (set_running true) m)
  | AtMake =>
      match make_chan m with
      | Done stopChan m' => Some (AtSetStopChan stopChan, m')
      | _ => None
      end
  | AtSetStopChan stopChan =>
      Some (AtUnlock stopChan, with_p (set_stopChan stopChan) m)
  | AtUnlock stopChan =>
      match Unlock m with Done _ m' => Some (AtGo stopChan, m') | _ => None end
  | AtGo stopChan =>
      match go_loop (mkLoop stopChan (s_startAddress c) (s_length c)
                            (s_updateFunc c) false) m with
      | Done _ m' => Some (Returned, m')
      | _ => None
      end
  | Returned => None
  end.

(** Two callers of [startMonitoring] on one viewer: the scheduler picks
    the first ([true]) or the second ([false]), which executes its next
    statement if it can move. *)
Definition two_step (c1 c2 : StartArgs) (s : StartPc * StartPc * Machine W)
    (first : bool) : StartPc * StartPc * Machine W :=
  let '(pc1, pc2, m) := s in
  if first then
    match start_step c1 pc1 m with
    | Some (pc1', m') => (pc1', pc2, m')
    | None => s
    end
  else
    match start_step c2 pc2 m with
    | Some (pc2', m') => (pc1, pc2', m')
    | None => s
    end.

Definition two_run (c1 c2 : StartArgs) (sched : list bool)
    (s : StartPc * StartPc * Machine W) : StartPc * StartPc * Machine W :=
  foldl (two_step c1 c2) s sched.

(** How far a caller is: it will launch a loop and has not yet
    ([will_launch]); it has set the running flag and has not launched
    yet ([has_set]). *)
Definition will_launch (pc : StartPc) : nat :=
  match pc with
  | AtSetRunning | AtMake | AtSetStopChan _ | AtUnlock _ | AtGo _ => 1
  | _ => 0
  end.

Definition has_set (pc : StartPc) : nat :=
  match pc with
  | AtMake | AtSetStopChan _ | AtUnlock _ | AtGo _ => 1
  | _ => 0
  end.

(** The invariant of two interleaved callers that started on the
    machine [m0]: the mutex is held exactly while one of them is between
    [Lock] and [Unlock], never both; channels and loops only grow; the
    loops launched and the callers about to launch are one at most, and
    the running flag is set exactly when one has set it or launched; a
    caller that returns leaves the flag set. *)
Definition two_inv (m0 : Machine W) (s : StartPc * StartPc * Machine W)
  : Prop :=
  let '(pc1, pc2, m) := s in
  mu (p m) = in_guard pc1 || in_guard pc2
  /\ in_guard pc1 && in_guard pc2 = false
  /\ (exists ext : list bool, chans m = chans m0 ++ ext)
  /\ (exists new : list Loop,
        loops m = loops m0 ++ new
        /\ (length new + will_launch pc1 + will_launch pc2 <= 1)%nat
        /\ (running (p m) = true
            <-> (length new + has_set pc1 + has_set pc2 = 1)%nat))
  /\ (pc1 = AtUnlockReturn \/ pc1 = Returned -> running (p m) = true)
  /\ (pc2 = AtUnlockReturn \/ pc2 = Returned -> running (p m) = true).

(** The byte count of a single-shot read and of a poll tick, as
    [readOnce] and the loop coerce them. *)
Definition clamp (maxBytes len : Z) : Z := Z.max 1 (Z.min len maxBytes).

End Methods.

(** A simulated PLC to run the model on: whether the controller answers
    a connection, whether it serves data-block and flat-memory reads,
    and its V memory. *)
Record SimPLC : Type := mkSim {
  online : bool;
  db_ok : bool;
  mb_ok : bool;
  vmem : list byte }.

Definition sim_read (start size : Z) (w : SimPLC) : list (nat * byte) :=
  imap (fun i b => (i, b))
       (take (Z.to_nat size) (drop (Z.to_nat start) (vmem w))).

#[export] Instance SimTransport : Transport SimPLC := {
  Connect _ w :=
    (if online w then None else Some "dial tcp: i/o timeout"%string, w);
  Close _ w := w;
  AGReadDB _ _ start size _ w :=
    (if db_ok w then mkReply (sim_read start size w) None
     else mkReply [] (Some "CPU : Address out of range"%string), w);
  AGReadMB _ start size _ w :=
    (if mb_ok w then mkReply (sim_read start size w) None
     else mkReply [] (Some "CPU : Item not available"%string), w) }.

Definition sim_plc (db mb : bool) : SimPLC :=
  mkSim true db mb [x01; x02; x03; xb0; xff; x00; x7f; x80].

Definition state_of {W A : Type} (o : Outcome (Machine W) A) : Machine W :=
  match o with
  | Done _ m => m
  | Blocked m => m
  | Panicked _ m => m
  end.

(** A new viewer, and the viewer after a first successful connect. *)
Definition sim_new (db mb : bool) : Machine SimPLC :=
  NewPLCBinaryViewer (sim_plc db mb).

Definition sim_connected (db mb : bool) : Machine SimPLC :=
  state_of (connectPLC "192.168.1.11" (sim_new db mb)).

(** The viewer after connect, start, one tick, stop and a second start:
    loop 0 has been cancelled and has not yet returned, loop 1 polls. *)
Definition sim_script : list Op :=
  [OpConnect "192.168.1.11"; OpStart 100 2 (Some 0%nat); OpTurn 0 RecvTick;
   OpStop; OpStart 2 9 None].

Definition sim_polling (db mb : bool) : Machine SimPLC :=
  state_of (run_ops sim_script (sim_new db mb)).

(** A new viewer whose PLC does not answer. *)
Definition sim_offline : Machine SimPLC :=
  NewPLCBinaryViewer (mkSim false true true []).

(** The bytes a read returned, empty when it returned none. *)
Definition read_data {W : Type} (o : Outcome (Machine W) ReadResult)
  : list byte :=
  match o with
  | Done (ReadOk data) _ => data
  | _ => []
  end.

End Viewer.

(* --------------------------------------------------------------------- *)
(* The bit grid of the read button                                       *)
(* --------------------------------------------------------------------- *)

Module Display.

(** [color.RGBA]. *)
Record RGBA : Type := mkRGBA { cR : Z; cG : Z; cB : Z; cA : Z }.

Definition grey : RGBA := mkRGBA 128 128 128 255.
Definition green : RGBA := mkRGBA 0 255 0 255.

Definition maxDisplayBytes : Z := 80.
Definition maxCols : nat := 32.
Definition maxRows : nat := 20.

(** A [*canvas.Rectangle]: nil, or a rectangle with its [FillColor]. *)
Abbreviation Rectangle := (option RGBA).

(** The byte count the read button computes before it calls [readOnce]
    (main.go 273-280). *)
Definition button_bytesToRead (len : Z) : Z :=
  let bytesToRead := len in
  let bytesToRead := if bytesToRead <=? 0 then 1 else bytesToRead in
  if bytesToRead >? maxDisplayBytes then maxDisplayBytes else bytesToRead.

(** [squares = append(squares, make([]*canvas.Rectangle, maxCols))] for
    every row (main.go 292-296): rows of nil pointers. *)
Definition alloc_squares : list (list Rectangle) :=
  foldl (fun squares _ => squares ++ [replicate maxCols None]) []
        (seq 0 maxRows).

(** [squares[row][col] = square]; an index out of range panics. *)
Definition set_square (squares : list (list Rectangle)) (row col : nat)
    (square : Rectangle) : option (list (list Rectangle)) :=
  rowSquares ← squares !! row;
  if decide (col < length rowSquares)%nat
  then Some (<[row := <[col := square]> rowSquares]> squares)
  else None.

(** The grid of grey squares (main.go 299-312). *)
Definition create_grid : option (list (list Rectangle)) :=
  foldl (fun acc row =>
           foldl (fun acc col =>
                    squares ← acc; set_square squares row col (Some grey))
                 acc (seq 0 maxCols))
        (Some alloc_squares) (seq 0 maxRows).

(** [square := squares[row][col]; square.FillColor = c]: an index out
    of range or a nil rectangle panics. *)
Definition fill (squares : list (list Rectangle)) (row col : nat) (c : RGBA)
  : option (list (list Rectangle)) :=
  rowSquares ← squares !! row;
  square ← rowSquares !! col;
  match square with
  | Some _ => set_square squares row col (Some c)
  | None => None
  end.

(** The body of the two loops over the bits of the data
    (main.go 335-352). *)
Definition paint_bit (dataBytes : list byte) (i j : nat)
    (squares : list (list Rectangle)) : option (list (list Rectangle)) :=
  let bitIndex := (i * 8 + j)%nat in
  let row := (bitIndex / maxCols)%nat in
  let col := (bitIndex mod maxCols)%nat in
  if decide (row < maxRows /\ col < maxCols)%nat then
    if Codec.bit_of (byte_at dataBytes i) j
    then fill squares row col green
    else fill squares row col grey
  else Some squares.

(** [for i := 0; i < len(dataBytes); i++ { for j := 0; j < 8; j++ ...]
    (main.go 333-354). *)
Definition paint_bits (dataBytes : list byte)
    (squares : list (list Rectangle)) : option (list (list Rectangle)) :=
  foldl (fun acc i =>
           foldl (fun acc j => squares ← acc; paint_bit dataBytes i j squares)
                 acc (seq 0 8))
        (Some squares) (seq 0 (length dataBytes)).

(** The body of the loop over the unused cells (main.go 359-365). *)
Definition clear_bit (bitIndex : nat) (squares : list (list Rectangle))
  : option (list (list Rectangle)) :=
  let row := (bitIndex / maxCols)%nat in
  let col := (bitIndex mod maxCols)%nat in
  if decide (row < maxRows /\ col < maxCols)%nat
  then fill squares row col grey
  else Some squares.

(** [for bitIndex := totalDataBits; bitIndex < maxRows*maxCols;
    bitIndex++] (main.go 357-366). *)
Definition clear_unused (dataBytes : list byte)
    (squares : list (list Rectangle)) : option (list (list Rectangle)) :=
  let totalDataBits := (length dataBytes * 8)%nat in
  foldl (fun acc bitIndex => squares ← acc; clear_bit bitIndex squares)
        (Some squares)
        (seq totalDataBits (maxRows * maxCols - totalDataBits)).

(** The grid the read button shows for the bytes it has read: create,
    paint, clear (main.go 282-312 and 332-366). *)
Definition show_data (dataBytes : list byte)
  : option (list (list Rectangle)) :=
  squares ← create_grid;
  squares ← paint_bits dataBytes squares;
  clear_unused dataBytes squares.

(** The colour of the square at [row], [col]. *)
Definition cell (squares : list (list Rectangle)) (row col : nat)
  : option RGBA :=
  rowSquares ← squares !! row; square ← rowSquares !! col; square.

(** A grid of [maxRows] rows of [maxCols] rectangles, none of them nil. *)
Definition full (squares : list (list Rectangle)) : Prop :=
  length squares = maxRows
  /\ Forall (fun rowSquares =>
               length rowSquares = maxCols /\ Forall is_Some rowSquares)
            squares.

(** The colour of bit [n] of the data, most significant bit first. *)
Definition bit_colour (dataBytes : list byte) (n : nat) : RGBA :=
  if Codec.bit_of (byte_at dataBytes (n / 8)) (n mod 8) then green else grey.

End Display.

(* ===================================================================== *)
(* Theorems                                                              *)
(* ===================================================================== *)

(* --------------------------------------------------------------------- *)
(* Codec                                                                 *)
(* --------------------------------------------------------------------- *)

Section CodecFacts.
Import Codec.

Lemma byte_val_range (b : byte) : 0 <= byte_val b < 256.
Proof.
  unfold byte_val. pose proof (Byte.to_N_bounded b) as Hb.
  lia.
Qed.

Lemma words_loop_step (bytes : list byte) (i : nat) (result : list Z) :
  (i < length bytes)%nat ->
  words_loop bytes i result
  = words_loop bytes (i + 2)
      (result ++
       [if decide (i + 1 < length bytes)%nat
        then Z.lor (Z.shiftl (byte_val (byte_at bytes i)) 8)
                   (byte_val (byte_at bytes (i + 1)))
        else byte_val (byte_at bytes i)]).
Proof.
  intros Hi. rewrite words_loop_equation_1.
  destruct (decide (i < length bytes)%nat) as [?|?]; [|lia].
  cbn. destruct (decide (i + 1 < length bytes)%nat); reflexivity.
Qed.

Lemma words_loop_stop (bytes : list byte) (i : nat) (result : list Z) :
  (length bytes <= i)%nat -> words_loop bytes i result = result.
Proof.
  intros Hi. rewrite words_loop_equation_1.
  destruct (decide (i < length bytes)%nat) as [?|?]; [lia|reflexivity].
Qed.

Lemma words_loop_app (bytes : list byte) (n i : nat) (result : list Z) :
  (length bytes - i <= n)%nat ->
  words_loop bytes i result = result ++ words_loop bytes i [].
Proof.
  revert i result. induction n as [|n IH]; intros i result Hn.
  - rewrite !words_loop_stop by lia. by rewrite app_nil_r.
  - destruct (decide (i < length bytes)%nat) as [Hi|Hi].
    + rewrite !(words_loop_step _ i) by done.
      rewrite (IH (i + 2)%nat (result ++ _)) by lia.
      rewrite (IH (i + 2)%nat ([] ++ _)) by lia.
      by rewrite <- app_assoc.
    + rewrite !words_loop_stop by lia. by rewrite app_nil_r.
Qed.

Lemma words_loop_cons (bytes : list byte) (i : nat) :
  (i < length bytes)%nat ->
  words_loop bytes i []
  = (if decide (i + 1 < length bytes)%nat
     then Z.lor (Z.shiftl (byte_val (byte_at bytes i)) 8)
                (byte_val (byte_at bytes (i + 1)))
     else byte_val (byte_at bytes i)) :: words_loop bytes (i + 2) [].
Proof.
  intros Hi. rewrite words_loop_step by done.
  by rewrite (words_loop_app bytes (length bytes)) by lia.
Qed.

Lemma words_loop_length (bytes : list byte) (n i : nat) :
  (length bytes - i <= n)%nat ->
  length (words_loop bytes i []) = ((length bytes - i + 1) / 2)%nat.
Proof.
  revert i. induction n as [|n IH]; intros i Hn.
  - rewrite words_loop_stop by lia.
    replace (length bytes - i + 1)%nat with 1%nat by lia. reflexivity.
  - destruct (decide (i < length bytes)%nat) as [Hi|Hi].
    + rewrite words_loop_cons by done. cbn [length]. rewrite IH by lia.
      destruct (decide (i + 2 <= length bytes)%nat) as [Hle|Hgt].
      * replace (length bytes - i + 1)%nat
          with (length bytes - (i + 2) + 1 + 1 * 2)%nat by lia.
        rewrite Nat.div_add by lia. lia.
      * replace (length bytes - (i + 2) + 1)%nat with 1%nat by lia.
        replace (length bytes - i + 1)%nat with 2%nat by lia.
        reflexivity.
    + rewrite words_loop_stop by lia.
      replace (length bytes - i + 1)%nat with 1%nat by lia. reflexivity.
Qed.

Lemma words_loop_lookup (bytes : list byte) (k i : nat) :
  (i + 2 * k < length bytes)%nat ->
  words_loop bytes i [] !! k
  = Some (if decide (i + 2 * k + 1 < length bytes)%nat
          then Z.lor (Z.shiftl (byte_val (byte_at bytes (i + 2 * k))) 8)
                     (byte_val (byte_at bytes (i + 2 * k + 1)))
          else byte_val (byte_at bytes (i + 2 * k))).
Proof.
  revert i. induction k as [|k IH]; intros i Hk.
  - rewrite words_loop_cons by lia. cbn [lookup list_lookup].
    replace (i + 2 * 0)%nat with i by lia. reflexivity.
  - rewrite words_loop_cons by lia. cbn [lookup list_lookup].
    rewrite IH by lia.
    replace (i + 2 + 2 * k)%nat with (i + 2 * S k)%nat by lia. reflexivity.
Qed.

Lemma word_range (hi lo : byte) :
  0 <= Z.lor (Z.shiftl (byte_val hi) 8) (byte_val lo) < 65536.
Proof.
  pose proof (byte_val_range hi) as Hh. pose proof (byte_val_range lo) as Hl.
  pose proof (Z.add_lor_land (Z.shiftl (byte_val hi) 8) (byte_val lo)) as Hsum.
  assert (0 <= Z.land (Z.shiftl (byte_val hi) 8) (byte_val lo)) as Hland
    by (apply Z.land_nonneg; lia).
  assert (0 <= Z.lor (Z.shiftl (byte_val hi) 8) (byte_val lo)) as Hlor.
  { apply Z.lor_nonneg. split; [apply Z.shiftl_nonneg|]; lia. }
  rewrite Z.shiftl_mul_pow2 in * by lia.
  change (2 ^ 8) with 256 in *. lia.
Qed.

(** C4: [convertBytesTo16BitInts] groups the bytes in big-endian pairs,
    [bytes[2k]<<8 | bytes[2k+1]]; an unpaired last byte becomes a value
    of its own with high byte zero; the result has [ceil(len/2)]
    elements, each a 16-bit value; [[0x01,0x02,0x03]] gives [[258, 3]]
    and the empty input gives the empty output. *)
Theorem convertBytesTo16BitInts_spec (bytes : list byte) :
  length (convertBytesTo16BitInts bytes) = ((length bytes + 1) / 2)%nat
  /\ (forall k : nat, (2 * k + 1 < length bytes)%nat ->
        convertBytesTo16BitInts bytes !! k
        = Some (Z.lor (Z.shiftl (byte_val (byte_at bytes (2 * k))) 8)
                      (byte_val (byte_at bytes (2 * k + 1)))))
  /\ (forall k : nat, (2 * k + 1 = length bytes)%nat ->
        convertBytesTo16BitInts bytes !! k
        = Some (byte_val (byte_at bytes (2 * k))))
  /\ Forall (fun w => 0 <= w < 65536) (convertBytesTo16BitInts bytes)
  /\ convertBytesTo16BitInts [x01; x02; x03] = [258; 3]
  /\ convertBytesTo16BitInts [] = [].
Proof.
  unfold convertBytesTo16BitInts. repeat split.
  - rewrite (words_loop_length bytes (length bytes)) by lia.
    by rewrite Nat.sub_0_r.
  - intros k Hk. rewrite words_loop_lookup by lia. cbn [Nat.add].
    destruct (decide (2 * k + 1 < length bytes)%nat); [done|lia].
  - intros k Hk. rewrite words_loop_lookup by lia. cbn [Nat.add].
    destruct (decide (2 * k + 1 < length bytes)%nat); [lia|done].
  - apply Forall_lookup_2. intros k w Hw.
    assert (k < length (words_loop bytes 0 []))%nat as Hlen
      by (eapply lookup_lt_Some; eassumption).
    rewrite (words_loop_length bytes (length bytes)) in Hlen by lia.
    assert (0 + 2 * k < length bytes)%nat as Hin.
    { rewrite Nat.sub_0_r in Hlen.
      pose proof (Nat.div_mod_eq (length bytes + 1) 2) as Hd.
      pose proof (Nat.mod_upper_bound (length bytes + 1) 2). lia. }
    rewrite words_loop_lookup in Hw by done. injection Hw as <-.
    destruct (decide _).
    + apply word_range.
    + match goal with
      | |- context [byte_val ?b] => pose proof (byte_val_range b)
      end. lia.
Qed.

Lemma bit_of_testbit (b : byte) (j : nat) :
  (j < 8)%nat -> bit_of b j = Z.testbit (byte_val b) (7 - Z.of_nat j).
Proof.
  intros Hj. unfold bit_of.
  rewrite <- (Z.add_0_l (7 - Z.of_nat j)) at 2.
  rewrite <- Z.shiftr_spec by lia. rewrite Z.bit0_odd.
  change 1 with (Z.ones 1) at 1. rewrite Z.land_ones by lia.
  rewrite Zodd_mod. change (2 ^ 1) with 2. reflexivity.
Qed.

Lemma store_bit_app (pre mid suf : list bool) (n j : nat) (v : bool) :
  length pre = n -> (j < length mid)%nat ->
  store_bit (pre ++ mid ++ suf) (n + j) v = Some (pre ++ <[j := v]> mid ++ suf).
Proof.
  intros <- Hj. unfold store_bit.
  destruct (decide _) as [_|Hn]; [|rewrite !length_app in Hn; lia].
  rewrite insert_app_r. by rewrite insert_app_l.
Qed.

Lemma byte_loop_app (pre suf : list bool) (i : nat) (b : byte) :
  length pre = (i * 8)%nat ->
  byte_loop i b (pre ++ replicate 8 false ++ suf)
  = Some (pre ++ (bit_of b <$> seq 0 8) ++ suf).
Proof.
  intros Hpre. unfold byte_loop. cbn [seq foldl replicate fmap list_fmap].
  repeat (cbn [mbind option_bind insert list_insert];
          rewrite store_bit_app by (cbn; first [done | lia])).
  reflexivity.
Qed.

Lemma range_loop_app (data : list byte) (i : nat) (pre : list bool) :
  length pre = (i * 8)%nat ->
  range_loop data i (pre ++ replicate (length data * 8) false)
  = Some (pre ++ (data ≫= fun b => bit_of b <$> seq 0 8)).
Proof.
  revert i pre. induction data as [|b rest IH]; intros i pre Hpre.
  - cbn. by rewrite !app_nil_r.
  - cbn [range_loop length].
    replace (S (length rest) * 8)%nat with (8 + length rest * 8)%nat by lia.
    rewrite replicate_add, byte_loop_app by done.
    cbn [mbind option_bind]. rewrite app_assoc, IH.
    + by rewrite <- app_assoc.
    + rewrite length_app, length_fmap, length_seq. lia.
Qed.

Lemma toBits_bind (B : list byte) :
  toBits (Z.of_nat (length B)) B = Some (B ≫= fun b => bit_of b <$> seq 0 8).
Proof.
  unfold toBits. cbn zeta.
  destruct (Z.ltb_spec (Z.of_nat (length B) * 8) 0) as [?|_]; [lia|].
  replace (Z.to_nat (Z.of_nat (length B) * 8)) with (length B * 8)%nat by lia.
  apply (range_loop_app B 0 []). reflexivity.
Qed.

Lemma bind_bits_length (B : list byte) :
  length (B ≫= fun b => bit_of b <$> seq 0 8) = (8 * length B)%nat.
Proof.
  induction B as [|b B IH]; [done|].
  cbn [mbind list_bind]. rewrite length_app, length_fmap, length_seq. 
  change (length (B ≫= fun b => bit_of b <$> seq 0 8) = (8 * length B)%nat) in IH.
  cbn [length]. lia.
Qed.

Lemma bind_bits_lookup (B : list byte) (i j : nat) (b : byte) :
  B !! i = Some b -> (j < 8)%nat ->
  (B ≫= fun b => bit_of b <$> seq 0 8) !! (i * 8 + j)%nat = Some (bit_of b j).
Proof.
  revert i. induction B as [|b0 B IH]; intros i Hi Hj; [done|].
  cbn [mbind list_bind]. destruct i as [|i].
  - injection Hi as ->. rewrite lookup_app_l by (rewrite length_fmap, length_seq; lia).
    rewrite list_lookup_fmap. cbn [Nat.mul Nat.add].
    rewrite lookup_seq_lt by lia. reflexivity.
  - rewrite lookup_app_r by (rewrite length_fmap, length_seq; lia).
    rewrite length_fmap, length_seq.
    replace (S i * 8 + j - 8)%nat with (i * 8 + j)%nat by lia.
    apply IH; done.
Qed.

Lemma byte_of_bits_of (b : byte) :
  byte_of_bits (bit_of b <$> seq 0 8) = b.
Proof. destruct b; vm_compute; reflexivity. Qed.

Lemma regroup_bind (B : list byte) :
  regroup (B ≫= fun b => bit_of b <$> seq 0 8) = B.
Proof.
  induction B as [|b B IH]; [done|].
  cbn [mbind list_bind fmap list_fmap seq app regroup].
  f_equal; [apply (byte_of_bits_of b)|exact IH].
Qed.

(** C5: decoding a byte sequence [B] to bits succeeds with [8*len(B)]
    booleans, the eight of byte [i] at positions [8i .. 8i+7] from its
    most significant bit to its least significant one, and regrouping
    them eight at a time, most significant first, gives [B] back. *)
Theorem toBits_roundtrip (B : list byte) :
  exists bits : list bool,
    toBits (Z.of_nat (length B)) B = Some bits
    /\ length bits = (8 * length B)%nat
    /\ (forall (i j : nat) (b : byte), B !! i = Some b -> (j < 8)%nat ->
          bits !! (i * 8 + j)%nat
          = Some (Z.testbit (byte_val b) (7 - Z.of_nat j)))
    /\ regroup bits = B.
Proof.
  eexists. split; [apply toBits_bind|]. split; [apply bind_bits_length|].
  split; [|apply regroup_bind].
  intros i j b Hi Hj. rewrite (bind_bits_lookup B i j b) by done.
  by rewrite bit_of_testbit.
Qed.

(** The byte 0b10110000 decodes to 1,0,1,1,0,0,0,0. *)
Example toBits_b0 :
  toBits 1 [xb0] = Some [true; false; true; true; false; false; false; false].
Proof. reflexivity. Qed.

End CodecFacts.

(* --------------------------------------------------------------------- *)
(* Session manager and poller                                            *)
(* --------------------------------------------------------------------- *)

Section ViewerFacts.
Import Viewer.
Import Codec.
Context {W : Type} `{Transport W}.

Ltac go_unfold :=
  unfold handler_Connect, handler_Close, NewTCPClientHandler, client_AGReadDB,
    client_AGReadMB, make_bytes, make_chan, close_chan, go_loop, log,
    Lock, Unlock, bind, gets, modify, ret, panic in *.

Lemma store_length (buffer : list byte) (ws : list (nat * byte)) :
  length (store buffer ws) = length buffer.
Proof.
  unfold store. revert buffer.
  induction ws as [|w ws IH]; intros buffer; [done|].
  cbn [foldl]. by rewrite IH, length_insert.
Qed.

(** The whole of [readVArea] on a connected viewer. *)
Lemma readVArea_connected (startByte size : Z) (c : Client) (m : Machine W) :
  mu (p m) = false -> client (p m) = Some c -> 0 <= size ->
  let buffer := replicate (Z.to_nat size) x00 in
  let db := AGReadDB c 1 startByte size buffer (world m) in
  let buffer1 := store buffer (writes db.1) in
  let m1 := emit (EvReadDB 1 startByte size) (with_world db.2 m) in
  let mb := AGReadMB c startByte size buffer1 db.2 in
  let m2 := emit (EvReadMB startByte size) (with_world mb.2 m1) in
  readVArea startByte size m
  = match err db.1 with
    | None => Done (ReadOk buffer1) m1
    | Some e1 =>
        match err mb.1 with
        | None => Done (ReadOk (store buffer1 (writes mb.1))) m2
        | Some e2 =>
            Done (ReadErr ("读取V区失败: " ++ e1 ++ ", MB方式失败: " ++ e2)%string) m2
        end
    end.
Proof.
  intros Hmu Hc Hsize. cbn zeta. unfold readVArea. go_unfold.
  rewrite Hmu. cbn. rewrite Hc.
  destruct (Z.ltb_spec size 0) as [?|_]; [lia|].
  destruct m as [[c0 h0 r0 s0 mu0] cs ls hs w tr]. cbn in *. subst.
  destruct (AGReadDB c 1 startByte size _ w) as [[ws1 e1] w1]. cbn.
  destruct e1 as [e1|]; [|reflexivity]. cbn.
  destruct (AGReadMB c startByte size _ w1) as [[ws2 e2] w2]. cbn.
  destruct e2 as [e2|]; reflexivity.
Qed.

Lemma readVArea_nil (startByte size : Z) (m : Machine W) :
  mu (p m) = false -> client (p m) = None ->
  readVArea startByte size m = Done (ReadErr "PLC未连接"%string) m.
Proof.
  intros Hmu Hc. unfold readVArea. go_unfold.
  rewrite Hmu. cbn. rewrite Hc.
  destruct m as [[c0 h0 r0 s0 mu0] cs ls hs w tr]. cbn in *. by subst.
Qed.

Lemma readVArea_held (startByte size : Z) (m : Machine W) :
  mu (p m) = true -> readVArea startByte size m = Blocked m.
Proof. intros Hmu. unfold readVArea. go_unfold. by rewrite Hmu. Qed.

(** C2: on a viewer without a client, [readVArea] returns the error
    "PLC未连接" (not connected) at once, for every window, and leaves
    the machine as it was: no transport read is invoked, the world and
    the trace are unchanged. *)
Theorem readVArea_not_connected (startByte size : Z) (m : Machine W) :
  mu (p m) = false -> client (p m) = None ->
  readVArea startByte size m = Done (ReadErr "PLC未连接"%string) m.
Proof. apply readVArea_nil. Qed.

(** C3: on a connected viewer, when the data-block read succeeds
    [readVArea] returns its buffer and the flat-memory read is not
    called; when the data-block read fails and the flat-memory read of
    the same offset and count succeeds, it returns that buffer and no
    error; when both fail it returns one error that carries both
    causes; and it returns an error in that last case only. *)
Theorem readVArea_fallback (startByte size : Z) (c : Client) (m : Machine W) :
  mu (p m) = false -> client (p m) = Some c -> 0 <= size ->
  let buffer := replicate (Z.to_nat size) x00 in
  let db := AGReadDB c 1 startByte size buffer (world m) in
  let buffer1 := store buffer (writes db.1) in
  let m1 := emit (EvReadDB 1 startByte size) (with_world db.2 m) in
  let mb := AGReadMB c startByte size buffer1 db.2 in
  let m2 := emit (EvReadMB startByte size) (with_world mb.2 m1) in
  (err db.1 = None -> readVArea startByte size m = Done (ReadOk buffer1) m1)
  /\ (forall e1 : error, err db.1 = Some e1 -> err mb.1 = None ->
        readVArea startByte size m
        = Done (ReadOk (store buffer1 (writes mb.1))) m2)
  /\ (forall e1 e2 : error, err db.1 = Some e1 -> err mb.1 = Some e2 ->
        readVArea startByte size m
        = Done (ReadErr ("读取V区失败: " ++ e1 ++ ", MB方式失败: " ++ e2)%string) m2)
  /\ (forall (e : error) (m' : Machine W),
        readVArea startByte size m = Done (ReadErr e) m' ->
        exists e1 e2 : error, err db.1 = Some e1 /\ err mb.1 = Some e2).
Proof.
  intros Hmu Hc Hsize. cbn zeta.
  rewrite (readVArea_connected startByte size c m Hmu Hc Hsize). cbn zeta.
  repeat split.
  - by intros ->.
  - by intros e1 -> ->.
  - by intros e1 e2 -> ->.
  - intros e m'. destruct (err _) as [e1|]; [|done].
    destruct (err _) as [e2|]; [|done]. eauto.
Qed.

Lemma readOnce_readVArea (startAddress len : Z) (m : Machine W) :
  readOnce startAddress len m = readVArea startAddress (clamp 80 len) m.
Proof.
  unfold readOnce, clamp. cbn zeta.
  replace (if (if len <=? 0 then 1 else len) >? 80 then 80
           else if len <=? 0 then 1 else len)
    with (Z.max 1 (Z.min len 80)).
  - unfold bind, ret. by destruct (readVArea _ _ m) as [[] ?| |].
  - destruct (Z.leb_spec len 0); destruct (Z.gtb_spec 1 80);
      destruct (Z.gtb_spec len 80); lia.
Qed.

(** C6: [readOnce] coerces its length into 1..80 and then is
    [readVArea]: length 0 behaves as length 1, length 1000 as length
    80, and a length already in the range is kept. *)
Theorem readOnce_clamps (x : Z) (m : Machine W) :
  readOnce x 0 m = readOnce x 1 m
  /\ readOnce x 1000 m = readOnce x 80 m
  /\ forall len : Z,
       1 <= clamp 80 len <= 80
       /\ (1 <= len <= 80 -> clamp 80 len = len)
       /\ readOnce x len m = readVArea x (clamp 80 len) m.
Proof.
  split; [by rewrite !readOnce_readVArea|].
  split; [by rewrite !readOnce_readVArea|].
  intros len. split; [unfold clamp; lia|].
  split; [unfold clamp; lia|]. apply readOnce_readVArea.
Qed.

Lemma readVArea_ok_length (startByte size : Z) (m m' : Machine W)
    (data : list byte) :
  readVArea startByte size m = Done (ReadOk data) m' ->
  length data = Z.to_nat size.
Proof.
  intros Hr. destruct (mu (p m)) eqn:Hmu.
  { by rewrite readVArea_held in Hr. }
  destruct (client (p m)) as [c|] eqn:Hc.
  2:{ by rewrite readVArea_nil in Hr. }
  destruct (Z.ltb_spec size 0) as [Hneg|Hpos].
  { unfold readVArea in Hr. go_unfold. rewrite Hmu in Hr. cbn in Hr.
    rewrite Hc in Hr. destruct (Z.ltb_spec size 0); [done|lia]. }
  rewrite (readVArea_connected _ _ c) in Hr by done. cbn zeta in Hr.
  destruct (err _); [destruct (err _)|]; simplify_eq;
    by rewrite ?store_length, length_replicate.
Qed.

(** C10: the bytes of a successful [readOnce] number exactly the
    length coerced into 1..80. *)
Theorem readOnce_length (startAddress len : Z) (m m' : Machine W)
    (data : list byte) :
  readOnce startAddress len m = Done (ReadOk data) m' ->
  length data = Z.to_nat (clamp 80 len).
Proof. rewrite readOnce_readVArea. apply readVArea_ok_length. Qed.

Lemma connectPLC_connected (ip : string) (m : Machine W) :
  mu (p m) = false -> is_Some (client (p m)) ->
  connectPLC ip m = Blocked (with_p (set_mu true) m).
Proof.
  intros Hmu [c Hc]. unfold connectPLC, disconnectPLC. go_unfold.
  rewrite Hmu. cbn. by rewrite Hc.
Qed.

Lemma same_poll_refl (m : Machine W) : same_poll m m.
Proof. by repeat split. Qed.

Lemma elem_of_snoc_close (tr : list Event) (e : Event) (c : nat) :
  (forall c', e <> EvCloseChan c') ->
  EvCloseChan c ∈ tr ++ [e] -> EvCloseChan c ∈ tr.
Proof.
  intros Hne [Hin|Hin%list_elem_of_singleton]%elem_of_app; [done|].
  by destruct (Hne c).
Qed.

Lemma readVArea_frame (startByte size : Z) (m m' : Machine W) (r : ReadResult) :
  readVArea startByte size m = Done r m' -> same_poll m m'.
Proof.
  intros Hr. destruct (mu (p m)) eqn:Hmu.
  { by rewrite readVArea_held in Hr. }
  destruct (client (p m)) as [c|] eqn:Hc.
  2:{ rewrite readVArea_nil in Hr by done. simplify_eq. apply same_poll_refl. }
  destruct (Z.ltb_spec size 0) as [Hneg|Hpos].
  { unfold readVArea in Hr. go_unfold. rewrite Hmu in Hr. cbn in Hr.
    rewrite Hc in Hr. destruct (Z.ltb_spec size 0); [done|lia]. }
  rewrite (readVArea_connected _ _ c) in Hr by done. cbn zeta in Hr.
  destruct (err _); [destruct (err _)|]; simplify_eq;
    (repeat split; cbn; try done; intros c' Hin;
     repeat (apply elem_of_snoc_close in Hin; [|done])); done.
Qed.

Lemma readOnce_frame (a l : Z) (m m' : Machine W) (r : ReadResult) :
  readOnce a l m = Done r m' -> same_poll m m'.
Proof. rewrite readOnce_readVArea. apply readVArea_frame. Qed.

Lemma disconnectPLC_frame (m m' : Machine W) :
  disconnectPLC m = Done tt m' -> same_poll m m'.
Proof.
  unfold disconnectPLC. go_unfold. intros Hr.
  destruct m as [[c0 h0 r0 s0 mu0] cs ls hs w tr]. cbn in *.
  destruct mu0; [done|]. cbn in *.
  destruct c0 as [c0|]; cbn in *; [destruct h0 as [h0|]; cbn in *|]; simplify_eq;
    (repeat split; cbn; try done; intros c' Hin;
     repeat (apply elem_of_snoc_close in Hin; [|done])); done.
Qed.

Lemma connectPLC_frame (ip : string) (m m' : Machine W) (r : option error) :
  connectPLC ip m = Done r m' -> same_poll m m'.
Proof.
  intros Hr. destruct (mu (p m)) eqn:Hmu.
  { unfold connectPLC in Hr. go_unfold. by rewrite Hmu in Hr. }
  destruct (client (p m)) as [c|] eqn:Hc.
  { by rewrite connectPLC_connected in Hr. }
  unfold connectPLC in Hr. go_unfold.
  destruct m as [[c0 h0 r0 s0 mu0] cs ls hs w tr]. cbn in *. subst. cbn in *.
  destruct (Connect _ w) as [[e|] w']; cbn in *; simplify_eq;
    (repeat split; cbn; try done; intros c' Hin;
     repeat (apply elem_of_snoc_close in Hin; [|done])); done.
Qed.

Lemma readVArea_returns (startByte size : Z) (m : Machine W) :
  mu (p m) = false -> 0 <= size ->
  exists (r : ReadResult) (m' : Machine W), readVArea startByte size m = Done r m'.
Proof.
  intros Hmu Hsize. destruct (client (p m)) as [c|] eqn:Hc.
  - rewrite (readVArea_connected _ _ c) by done. cbn zeta.
    destruct (err _); [destruct (err _)|]; eauto.
  - rewrite readVArea_nil by done. eauto.
Qed.

Lemma loop_tick_eq (l : Loop) (m : Machine W) :
  loop_tick l m
  = match readVArea (l_startAddr l) (clamp 4 (l_len l)) m with
    | Done (ReadErr e) m' => Done tt (emit (EvLog ("读取数据失败: " ++ e)%string) m')
    | Done (ReadOk data) m' =>
        match Codec.toBits (clamp 4 (l_len l)) data with
        | None => Panicked "index out of range" m'
        | Some bits =>
            match l_updateFn l with
            | Some fn => Done tt (emit (EvUpdate fn bits) m')
            | None => Done tt m'
            end
        end
    | Blocked m' => Blocked m'
    | Panicked msg m' => Panicked msg m'
    end.
Proof.
  unfold loop_tick, clamp. cbn zeta.
  replace (if (if l_len l <=? 0 then 1 else l_len l) >? 4 then 4
           else if l_len l <=? 0 then 1 else l_len l)
    with (Z.max 1 (Z.min (l_len l) 4)).
  - unfold bind. destruct (readVArea _ _ m) as [[data|e] m'| |]; try done.
    destruct (Codec.toBits _ data); [|done]. by destruct (l_updateFn l).
  - destruct (Z.leb_spec (l_len l) 0); destruct (Z.gtb_spec 1 4);
      destruct (Z.gtb_spec (l_len l) 4); lia.
Qed.

Lemma toBits_full (n : Z) (data : list byte) :
  0 <= n -> length data = Z.to_nat n -> is_Some (Codec.toBits n data).
Proof.
  intros Hn Hlen. replace n with (Z.of_nat (length data)) by lia.
  rewrite toBits_bind. eauto.
Qed.

Lemma loop_tick_returns (l : Loop) (m : Machine W) :
  mu (p m) = false ->
  exists m' : Machine W, loop_tick l m = Done tt m' /\ same_poll m m'.
Proof.
  intros Hmu. rewrite loop_tick_eq.
  destruct (readVArea_returns (l_startAddr l) (clamp 4 (l_len l)) m)
    as (r & m' & Hr); [done|unfold clamp; lia|].
  rewrite Hr. pose proof (readVArea_frame _ _ _ _ _ Hr) as Hf.
  destruct r as [data|e].
  - destruct (toBits_full (clamp 4 (l_len l)) data) as [bits ->];
      [unfold clamp; lia|by eapply readVArea_ok_length|].
    destruct (l_updateFn l); eexists; (split; [done|]); [|done].
    destruct Hf as (?&?&?&?&?&Hin). repeat split; cbn; try done.
    intros c' Hc'. apply Hin. by apply elem_of_snoc_close in Hc'.
  - eexists; split; [done|].
    destruct Hf as (?&?&?&?&?&Hin). repeat split; cbn; try done.
    intros c' Hc'. apply Hin. by apply elem_of_snoc_close in Hc'.
Qed.

Lemma startMonitoring_running (a l : Z) (f : option nat) (m : Machine W) :
  mu (p m) = false -> running (p m) = true ->
  startMonitoring a l f m = Done tt m.
Proof.
  intros Hmu Hr. unfold startMonitoring. go_unfold.
  destruct m as [[c0 h0 r0 s0 mu0] cs ls hs w tr]. cbn in *. by subst.
Qed.

Lemma startMonitoring_idle (a l : Z) (f : option nat) (m : Machine W) :
  mu (p m) = false -> running (p m) = false ->
  startMonitoring a l f m
  = Done tt
      (mkMachine
         (mkViewer (client (p m)) (handler (p m)) true (length (chans m)) false)
         (chans m ++ [false])
         (loops m ++ [mkLoop (length (chans m)) a l f false])
         (handlers m) (world m) (trace m)).
Proof.
  intros Hmu Hr. unfold startMonitoring. go_unfold.
  destruct m as [[c0 h0 r0 s0 mu0] cs ls hs w tr]. cbn in *. by subst.
Qed.

Lemma stopMonitoring_idle (m : Machine W) :
  mu (p m) = false -> running (p m) = false -> stopMonitoring m = Done tt m.
Proof.
  intros Hmu Hr. unfold stopMonitoring. go_unfold.
  destruct m as [[c0 h0 r0 s0 mu0] cs ls hs w tr]. cbn in *. by subst.
Qed.

Lemma stopMonitoring_running (m : Machine W) :
  mu (p m) = false -> running (p m) = true -> chan_open (chans m) (stopChan (p m)) ->
  stopMonitoring m
  = Done tt
      (mkMachine
         (mkViewer (client (p m)) (handler (p m)) false (stopChan (p m)) false)
         (<[stopChan (p m) := true]> (chans m))
         (loops m) (handlers m) (world m)
         (trace m ++ [EvCloseChan (stopChan (p m))])).
Proof.
  intros Hmu Hr Hopen. unfold stopMonitoring. go_unfold. unfold chan_open in Hopen.
  destruct m as [[c0 h0 r0 s0 mu0] cs ls hs w tr]. cbn in *. subst. cbn.
  by rewrite Hopen.
Qed.

Lemma loop_turn_stop (k : nat) (l : Loop) (m : Machine W) :
  loops m !! k = Some l -> l_exited l = false ->
  loop_turn k RecvStop m
  = Done tt (if decide (chans m !! l_stopChan l = Some true)
             then with_loops (<[k := exit_loop l]>) m else m).
Proof.
  intros Hk Hl. unfold loop_turn. go_unfold. rewrite Hk, Hl.
  destruct (chans m !! l_stopChan l) as [[]|] eqn:Hc; by case_decide.
Qed.

Lemma loop_turn_tick (k : nat) (l : Loop) (m : Machine W) :
  loops m !! k = Some l -> l_exited l = false ->
  loop_turn k RecvTick m = loop_tick l m.
Proof. intros Hk Hl. unfold loop_turn. go_unfold. by rewrite Hk, Hl. Qed.

Lemma loop_turn_gone (k : nat) (sel : Select) (m : Machine W) :
  (loops m !! k = None \/ exists l, loops m !! k = Some l /\ l_exited l = true) ->
  loop_turn k sel m = Done tt m.
Proof.
  intros [Hk|(l & Hk & Hl)]; unfold loop_turn; go_unfold; rewrite Hk; [done|].
  by rewrite Hl.
Qed.

Lemma filter_none {A} (P : A -> Prop) `{!forall x, Decision (P x)} (l : list A) :
  (forall x, x ∈ l -> ~ P x) -> filter P l = [].
Proof.
  induction l as [|x l IH]; intros Hl; [done|].
  rewrite filter_cons_False by (apply Hl; left).
  apply IH. intros y Hy. apply Hl. by right.
Qed.

Lemma filter_insert_out {A} (P : A -> Prop) `{!forall x, Decision (P x)}
    (l : list A) (k : nat) (x y : A) :
  l !! k = Some x -> ~ P x -> ~ P y -> filter P (<[k := y]> l) = filter P l.
Proof.
  revert k. induction l as [|z l IH]; intros k Hk Hx Hy; [done|].
  destruct k as [|k].
  - change (<[0%nat := y]> (z :: l)) with (y :: l).
    injection Hk as ->. by rewrite !filter_cons_False.
  - change (<[S k := y]> (z :: l)) with (z :: <[k := y]> l).
    rewrite !filter_cons, (IH k) by done. done.
Qed.

Lemma poll_inv_new (w : W) : poll_inv (NewPLCBinaryViewer w).
Proof.
  unfold poll_inv. cbn.
  split; [done|]. split; [|split; [|split; [|split]]]; try done.
  - intros l Hl. by apply elem_of_nil in Hl.
  - intros l Hl. by apply elem_of_nil in Hl.
  - intros c Hc. by apply elem_of_nil in Hc.
Qed.

Lemma poll_inv_same (m m' : Machine W) :
  poll_inv m -> same_poll m m' -> poll_inv m'.
Proof.
  intros (Hmu & Hlt & Hopen & Hrun & Hact & Hcl) (Er & Es & Em & Ec & El & Et).
  unfold poll_inv, active, chan_open in *.
  rewrite Er, Es, Em, Ec, El. split_and!; try done.
  intros c Hc. by apply Hcl, Et.
Qed.

Lemma poll_inv_start (a l : Z) (f : option nat) (m m' : Machine W) :
  poll_inv m -> startMonitoring a l f m = Done tt m' -> poll_inv m'.
Proof.
  intros Hinv Hs. pose proof Hinv as (Hmu & Hlt & Hopen & Hrun & Hact & Hcl).
  destruct (running (p m)) eqn:Hr.
  { rewrite startMonitoring_running in Hs by done. by simplify_eq. }
  rewrite startMonitoring_idle in Hs by done. simplify_eq.
  assert (forall x : Loop, x ∈ loops m ->
            ~ chans m !! l_stopChan x = Some false) as Hclosed.
  { intros x Hx Hox. by destruct (Hopen x Hx Hox) as [? _]. }
  unfold poll_inv, active, chan_open in *. cbn.
  split; [done|]. split; [|split; [|split; [|split]]].
  - intros x [Hx|Hx%list_elem_of_singleton]%elem_of_app; rewrite length_app; cbn.
    + specialize (Hlt x Hx). lia.
    + subst x. cbn. lia.
  - intros x [Hx|Hx%list_elem_of_singleton]%elem_of_app Hox.
    + rewrite lookup_app_l in Hox by (by apply Hlt). by destruct (Hclosed x Hx).
    + by subst x.
  - intros _. by rewrite lookup_app_r, Nat.sub_diag by lia.
  - rewrite filter_app.
    rewrite (filter_none _ (loops m)).
    + rewrite filter_cons_True; [done|]. cbn.
      by rewrite lookup_app_r, Nat.sub_diag by lia.
    + intros x Hx Hox. rewrite lookup_app_l in Hox by (by apply Hlt).
      by destruct (Hclosed x Hx).
  - intros c Hc. apply lookup_app_l_Some. by apply Hcl.
Qed.

Lemma poll_inv_stop (m m' : Machine W) :
  poll_inv m -> stopMonitoring m = Done tt m' -> poll_inv m'.
Proof.
  intros Hinv Hs. pose proof Hinv as (Hmu & Hlt & Hopen & Hrun & Hact & Hcl).
  destruct (running (p m)) eqn:Hr.
  2:{ rewrite stopMonitoring_idle in Hs by done. by simplify_eq. }
  specialize (Hrun eq_refl).
  rewrite stopMonitoring_running in Hs by done. simplify_eq.
  assert (stopChan (p m) < length (chans m))%nat as Hsc
    by (eapply lookup_lt_Some; exact Hrun).
  assert (forall x : Loop, x ∈ loops m ->
            ~ <[stopChan (p m) := true]> (chans m) !! l_stopChan x = Some false)
    as Hclosed.
  { intros x Hx Hox.
    destruct (decide (l_stopChan x = stopChan (p m))) as [Heq|Hne].
    - rewrite Heq, list_lookup_insert_eq in Hox by done. done.
    - rewrite list_lookup_insert_ne in Hox by done.
      destruct (Hopen x Hx Hox) as (_ & ? & _). done. }
  unfold poll_inv, active, chan_open in *. cbn.
  split; [done|]. split; [|split; [|split; [|split]]].
  - intros x Hx. rewrite length_insert. by apply Hlt.
  - intros x Hx Hox. by destruct (Hclosed x Hx).
  - done.
  - by rewrite filter_none.
  - intros c [Hc|Hc%list_elem_of_singleton]%elem_of_app.
    + destruct (decide (c = stopChan (p m))) as [->|Hne].
      * by rewrite list_lookup_insert_eq.
      * rewrite list_lookup_insert_ne by done. by apply Hcl.
    + simplify_eq. by rewrite list_lookup_insert_eq.
Qed.

Lemma poll_inv_turn (k : nat) (sel : Select) (m m' : Machine W) :
  poll_inv m -> loop_turn k sel m = Done tt m' -> poll_inv m'.
Proof.
  intros Hinv Hs. pose proof Hinv as (Hmu & Hlt & Hopen & Hrun & Hact & Hcl).
  destruct (loops m !! k) as [l|] eqn:Hk.
  2:{ rewrite loop_turn_gone in Hs by eauto. by simplify_eq. }
  destruct (l_exited l) eqn:Hl.
  { rewrite loop_turn_gone in Hs by eauto. by simplify_eq. }
  destruct sel.
  - rewrite (loop_turn_stop k l) in Hs by done.
    case_decide as Hc; simplify_eq; [|done].
    assert (forall x : Loop, x ∈ <[k := exit_loop l]> (loops m) ->
              x = exit_loop l \/ x ∈ loops m) as Hin.
    { intros x Hx. apply list_elem_of_lookup in Hx as [i Hi].
      destruct (decide (i = k)) as [->|Hne].
      - rewrite list_lookup_insert_eq in Hi by (by eapply lookup_lt_Some).
        left. by simplify_eq.
      - rewrite list_lookup_insert_ne in Hi by done.
        right. apply list_elem_of_lookup. eauto. }
    unfold poll_inv, active, chan_open in *. cbn.
    split; [done|]. split; [|split; [|split; [|split]]]; try done.
    + intros x [->|Hx]%Hin; [|by apply Hlt]. cbn.
      eapply lookup_lt_Some. exact Hc.
    + intros x [->|Hx]%Hin Hox; [|by apply Hopen]. cbn in Hox. congruence.
    + rewrite (filter_insert_out _ (loops m) k l); [done..| |].
      * congruence.
      * cbn. congruence.
  - rewrite (loop_turn_tick k l) in Hs by done.
    destruct (loop_tick_returns l m Hmu) as (m2 & Hm2 & Hf).
    rewrite Hm2 in Hs. simplify_eq. by eapply poll_inv_same.
Qed.

(** Every reachable state satisfies the invariant of the poller. *)
Lemma reachable_inv (m : Machine W) : reachable m -> poll_inv m.
Proof.
  induction 1 as [w|m m' o _ IH Hop|m w _ IH].
  - apply poll_inv_new.
  - destruct o as [ip| |a l|a l f| |k sel]; unfold run_op in Hop.
    + unfold bind, ret in Hop.
      destruct (connectPLC ip m) as [r m2| |] eqn:Hc; simplify_eq.
      eapply poll_inv_same; [done|]. by eapply connectPLC_frame.
    + eapply poll_inv_same; [done|]. by eapply disconnectPLC_frame.
    + unfold bind, ret in Hop.
      destruct (readOnce a l m) as [r m2| |] eqn:Hc; simplify_eq.
      eapply poll_inv_same; [done|]. by eapply readOnce_frame.
    + by eapply poll_inv_start.
    + by eapply poll_inv_stop.
    + by eapply poll_inv_turn.
  - eapply poll_inv_same; [done|]. by repeat split.
Qed.

Lemma reachable_run_ops (os : list Op) (m m' : Machine W) :
  reachable m -> run_ops os m = Done tt m' -> reachable m'.
Proof.
  revert m. induction os as [|o os IH]; intros m Hm Hr; cbn in Hr.
  - unfold ret in Hr. by simplify_eq.
  - unfold bind in Hr. destruct (run_op o m) as [[] m1| |] eqn:Ho; [|done..].
    eapply IH; [|done]. by eapply reach_op.
Qed.

Lemma idle_loops_closed (m : Machine W) (x : Loop) :
  poll_inv m -> running (p m) = false -> x ∈ loops m ->
  ~ chan_open (chans m) (l_stopChan x).
Proof.
  intros (_ & _ & Hopen & _) Hr Hx Hox.
  destruct (Hopen x Hx Hox) as [? _]. congruence.
Qed.

Lemma start_idle_facts (a l : Z) (f : option nat) (m : Machine W) :
  poll_inv m -> running (p m) = false ->
  exists m1 : Machine W,
    startMonitoring a l f m = Done tt m1
    /\ running (p m1) = true
    /\ mu (p m1) = false
    /\ stopChan (p m1) = length (chans m)
    /\ chans m1 = chans m ++ [false]
    /\ trace m1 = trace m
    /\ loops m1 = loops m ++ [mkLoop (length (chans m)) a l f false]
    /\ active m1 = [mkLoop (length (chans m)) a l f false].
Proof.
  intros Hinv Hr. pose proof Hinv as (Hmu & Hlt & _).
  eexists. split; [by apply startMonitoring_idle|]. cbn.
  split_and!; try done.
  unfold active. cbn. rewrite filter_app, filter_none.
  - rewrite filter_cons_True; [done|]. unfold chan_open. cbn.
    by rewrite lookup_app_r, Nat.sub_diag by lia.
  - intros x Hx Hox. unfold chan_open in Hox.
    rewrite lookup_app_l in Hox by (by apply Hlt).
    by eapply idle_loops_closed.
Qed.

(** C8: a start that launches a loop makes a new channel, open, used
    by no earlier loop and never closed before; a stop while running
    closes the current channel, which was open and had no close event,
    exactly once and clears the flag; a second stop changes nothing; a
    start right after the stop runs on another channel, open, and its
    loop is the only active one; a stop while not running changes
    nothing. *)
Theorem stop_then_start_fresh (m : Machine W) :
  reachable m ->
  (running (p m) = false ->
   forall (a l : Z) (f : option nat),
   exists m1 : Machine W,
     startMonitoring a l f m = Done tt m1
     /\ running (p m1) = true
     /\ stopChan (p m1) = length (chans m)
     /\ chan_open (chans m1) (stopChan (p m1))
     /\ loops m1 = loops m ++ [mkLoop (stopChan (p m1)) a l f false]
     /\ (forall x : Loop, x ∈ loops m -> l_stopChan x <> stopChan (p m1))
     /\ (forall c : nat, EvCloseChan c ∈ trace m1 -> c <> stopChan (p m1)))
  /\ (running (p m) = true ->
      exists m1 : Machine W,
        stopMonitoring m = Done tt m1
        /\ running (p m1) = false
        /\ chan_open (chans m) (stopChan (p m))
        /\ (EvCloseChan (stopChan (p m)) ∉ trace m)
        /\ trace m1 = trace m ++ [EvCloseChan (stopChan (p m))]
        /\ chans m1 = <[stopChan (p m) := true]> (chans m)
        /\ stopMonitoring m1 = Done tt m1
        /\ forall (a l : Z) (f : option nat),
           exists m2 : Machine W,
             startMonitoring a l f m1 = Done tt m2
             /\ running (p m2) = true
             /\ stopChan (p m2) <> stopChan (p m)
             /\ chan_open (chans m2) (stopChan (p m2))
             /\ active m2 = [mkLoop (stopChan (p m2)) a l f false])
  /\ (running (p m) = false -> stopMonitoring m = Done tt m).
Proof.
  intros Hm. pose proof (reachable_inv m Hm) as Hinv.
  pose proof Hinv as (Hmu & Hlt & _ & Hrun & _ & Hcl).
  split_and!.
  - intros Hr a l f.
    destruct (start_idle_facts a l f m Hinv Hr)
      as (m1 & Hs & Hr1 & Hmu1 & Hsc & Hcs & Htr & Hl & Ha).
    exists m1. rewrite Hsc, Hcs, Htr. split_and!; try done.
    + unfold chan_open. by rewrite lookup_app_r, Nat.sub_diag by lia.
    + intros x Hx. specialize (Hlt x Hx). lia.
    + intros c Hc%Hcl. apply lookup_lt_Some in Hc. lia.
  - intros Hr. specialize (Hrun Hr).
    assert (stopChan (p m) < length (chans m))%nat as Hsc
      by (eapply lookup_lt_Some; exact Hrun).
    pose (m1 := mkMachine
                  (mkViewer (client (p m)) (handler (p m)) false
                            (stopChan (p m)) false)
                  (<[stopChan (p m) := true]> (chans m))
                  (loops m) (handlers m) (world m)
                  (trace m ++ [EvCloseChan (stopChan (p m))])).
    assert (stopMonitoring m = Done tt m1) as Hs
      by (by apply stopMonitoring_running).
    assert (reachable m1) as Hm1 by (by apply (reach_op m m1 OpStop Hm)).
    pose proof (reachable_inv m1 Hm1) as Hinv1.
    exists m1. split; [exact Hs|]. split; [reflexivity|].
    split; [exact Hrun|]. split.
    { intros Hin%Hcl. unfold chan_open in Hrun. congruence. }
    split; [reflexivity|]. split; [reflexivity|].
    split; [by apply stopMonitoring_idle|].
    intros a l f.
    destruct (start_idle_facts a l f m1 Hinv1 eq_refl)
      as (m2 & Hs2 & Hr2 & Hmu2 & Hsc2 & Hcs2 & Htr2 & Hl2 & Ha2).
    exists m2. rewrite Hsc2, Hcs2. split_and!; try done.
    + unfold m1. cbn [chans]. rewrite length_insert. lia.
    + unfold chan_open. by rewrite lookup_app_r, Nat.sub_diag by lia.
  - intros Hr. by apply stopMonitoring_idle.
Qed.

Lemma readVArea_no_update (startByte size : Z) (m m' : Machine W)
    (r : ReadResult) (fn : nat) (bits : list bool) :
  readVArea startByte size m = Done r m' ->
  EvUpdate fn bits ∈ trace m' -> EvUpdate fn bits ∈ trace m.
Proof.
  intros Hr. destruct (mu (p m)) eqn:Hmu.
  { by rewrite readVArea_held in Hr. }
  destruct (client (p m)) as [c|] eqn:Hc.
  2:{ rewrite readVArea_nil in Hr by done. by simplify_eq. }
  destruct (Z.ltb_spec size 0) as [Hneg|Hpos].
  { unfold readVArea in Hr. go_unfold. rewrite Hmu in Hr. cbn in Hr.
    rewrite Hc in Hr. destruct (Z.ltb_spec size 0); [done|lia]. }
  rewrite (readVArea_connected _ _ c) in Hr by done. cbn zeta in Hr.
  destruct (err _); [destruct (err _)|]; simplify_eq; cbn; intros Hin;
    repeat (apply elem_of_app in Hin as [Hin|Hin%list_elem_of_singleton];
            [|done]); done.
Qed.

(** C9: when the read of a tick fails, the turn returns after logging
    the error, the update function is not called, and the loop is still
    there, not returned, with the mutex free for the next tick; every
    turn of a loop returns, and the loop has returned after it exactly
    when the turn took the stop case on a closed channel. *)
Theorem tick_failure_continues (m : Machine W) (k : nat) (l : Loop) :
  mu (p m) = false -> loops m !! k = Some l -> l_exited l = false ->
  (forall (e : error) (m' : Machine W),
     readVArea (l_startAddr l) (clamp 4 (l_len l)) m = Done (ReadErr e) m' ->
     loop_turn k RecvTick m
     = Done tt (emit (EvLog ("读取数据失败: " ++ e)%string) m')
     /\ mu (p m') = false
     /\ loops m' !! k = Some l
     /\ (forall (fn : nat) (bits : list bool),
           EvUpdate fn bits ∈ trace m' ++ [EvLog ("读取数据失败: " ++ e)%string] ->
           EvUpdate fn bits ∈ trace m))
  /\ (forall sel : Select,
      exists (m' : Machine W) (l' : Loop),
        loop_turn k sel m = Done tt m'
        /\ loops m' !! k = Some l'
        /\ (l_exited l' = true
            <-> sel = RecvStop /\ chans m !! l_stopChan l = Some true)).
Proof.
  intros Hmu Hk Hl. split.
  - intros e m' Hr. rewrite (loop_turn_tick k l) by done.
    rewrite loop_tick_eq, Hr.
    destruct (readVArea_frame _ _ _ _ _ Hr) as (_ & _ & Em & _ & El & _).
    split; [done|]. split; [by rewrite Em|]. split; [by rewrite El|].
    intros fn bits [Hin|Hin%list_elem_of_singleton]%elem_of_app; [|done].
    by eapply readVArea_no_update.
  - intros [|].
    + rewrite (loop_turn_stop k l) by done. case_decide as Hc.
      * exists (with_loops (<[k := exit_loop l]>) m), (exit_loop l).
        split; [done|]. cbn.
        split; [apply list_lookup_insert_eq; by eapply lookup_lt_Some|done].
      * exists m, l. split_and!; try done. rewrite Hl. split; [done|].
        by intros [_ ?].
    + rewrite (loop_turn_tick k l) by done.
      destruct (loop_tick_returns l m Hmu) as (m' & Hm' & _ & _ & _ & _ & El & _).
      exists m', l. split_and!; try done; [by rewrite El|].
      rewrite Hl. split; [done|]. by intros [? _].
Qed.

End ViewerFacts.

(* --------------------------------------------------------------------- *)
(* The model at work on the simulated PLC                                *)
(* --------------------------------------------------------------------- *)

Section Scenarios.
Import Viewer.

Lemma loops_emit {W : Type} (e : Event) (m : Machine W) :
  loops (emit e m) = loops m.
Proof. reflexivity. Qed.

Lemma sim_polling_reachable (db mb : bool) : reachable (sim_polling db mb).
Proof.
  apply (reachable_run_ops sim_script (sim_new db mb)); [apply reach_new|].
  destruct db, mb; vm_compute; reflexivity.
Qed.

(** C1: a second [connectPLC] on a connected viewer never returns.  It
    takes the mutex and calls [disconnectPLC], which waits for the same
    mutex: the old handler is not closed, there is no pause and no new
    connection, and the mutex stays held. *)
Theorem connectPLC_reconnect_blocks :
  is_Some (client (p (sim_connected true true)))
  /\ mu (p (sim_connected true true)) = false
  /\ connectPLC "192.168.1.12" (sim_connected true true)
     = Blocked (with_p (set_mu true) (sim_connected true true))
  /\ trace (sim_connected true true)
     = [EvConnect (mkHandler "192.168.1.11" 0 1 5000 60000 0)].
Proof.
  split; [by eexists|]. split; [done|]. split; [|done].
  apply connectPLC_connected; [done|by eexists].
Qed.

(** A read on a new viewer. *)
Lemma readVArea_not_connected_witness :
  mu (p (sim_new true true)) = false
  /\ client (p (sim_new true true)) = None
  /\ readVArea 100 4 (sim_new true true)
     = Done (ReadErr "PLC未连接"%string) (sim_new true true).
Proof.
  split; [reflexivity|]. split; [reflexivity|].
  apply (readVArea_not_connected 100 4 (sim_new true true)); reflexivity.
Defined.

(** The data-block read fails, the flat-memory read serves V0..V2. *)
Lemma readVArea_fallback_witness :
  mu (p (sim_connected false true)) = false
  /\ client (p (sim_connected false true))
     = Some (NewClient (mkHandler "192.168.1.11" 0 1 5000 60000 0))
  /\ 0 <= 3
  /\ readVArea 0 3 (sim_connected false true)
     = Done (ReadOk [x01; x02; x03])
            (state_of (readVArea 0 3 (sim_connected false true))).
Proof.
  split; [reflexivity|]. split; [reflexivity|]. split; [lia|].
  destruct (readVArea_fallback 0 3
              (NewClient (mkHandler "192.168.1.11" 0 1 5000 60000 0))
              (sim_connected false true) eq_refl eq_refl ltac:(lia))
    as (_ & Hmb & _).
  rewrite (Hmb "CPU : Address out of range"%string eq_refl eq_refl).
  reflexivity.
Defined.

(** A request for 1000 bytes returns 80. *)
Lemma readOnce_length_witness :
  readOnce 0 1000 (sim_connected true true)
  = Done (ReadOk (read_data (readOnce 0 1000 (sim_connected true true))))
         (state_of (readOnce 0 1000 (sim_connected true true)))
  /\ length (read_data (readOnce 0 1000 (sim_connected true true))) = 80%nat.
Proof.
  assert (readOnce 0 1000 (sim_connected true true)
          = Done (ReadOk (read_data (readOnce 0 1000 (sim_connected true true))))
                 (state_of (readOnce 0 1000 (sim_connected true true)))) as Hr
    by (vm_compute; reflexivity).
  split; [exact Hr|].
  exact (readOnce_length 0 1000 (sim_connected true true) _ _ Hr).
Defined.

(** Stopping the polling viewer, twice. *)
Lemma stop_then_start_fresh_witness :
  reachable (sim_polling true true)
  /\ running (p (sim_polling true true)) = true
  /\ exists m1 : Machine SimPLC,
       stopMonitoring (sim_polling true true) = Done tt m1
       /\ stopMonitoring m1 = Done tt m1.
Proof.
  split; [apply sim_polling_reachable|]. split; [reflexivity|].
  destruct (stop_then_start_fresh (sim_polling true true)
              (sim_polling_reachable true true)) as (_ & Hstop & _).
  destruct (Hstop eq_refl) as (m1 & Hs & _ & _ & _ & _ & _ & Hs2 & _).
  exists m1. split; [exact Hs|exact Hs2].
Defined.

(** A tick of loop 1 against a PLC that refuses both reads. *)
Lemma tick_failure_continues_witness :
  mu (p (sim_polling false false)) = false
  /\ loops (sim_polling false false) !! 1%nat
     = Some (mkLoop 2 2 9 None false)
  /\ exists m' : Machine SimPLC,
       loop_turn 1 RecvTick (sim_polling false false) = Done tt m'
       /\ loops m' !! 1%nat = Some (mkLoop 2 2 9 None false).
Proof.
  assert (mu (p (sim_polling false false)) = false) as Hmu
    by (vm_compute; reflexivity).
  assert (loops (sim_polling false false) !! 1%nat
          = Some (mkLoop 2 2 9 None false)) as Hk
    by (vm_compute; reflexivity).
  assert (readVArea 2 (clamp 4 9) (sim_polling false false)
          = Done (ReadErr ("读取V区失败: CPU : Address out of range"
                           ++ ", MB方式失败: CPU : Item not available")%string)
                 (state_of (readVArea 2 (clamp 4 9) (sim_polling false false))))
    as Hr by (vm_compute; reflexivity).
  split; [exact Hmu|]. split; [exact Hk|].
  destruct (tick_failure_continues (sim_polling false false) 1
              (mkLoop 2 2 9 None false) Hmu Hk eq_refl)
    as (Hfail & _).
  destruct (Hfail _ _ Hr) as (Hturn & _ & Hk' & _).
  eexists. split; [exact Hturn|]. rewrite loops_emit. exact Hk'.
Defined.

End Scenarios.

(* ===================================================================== *)
(* Further properties of the code                                        *)
(* ===================================================================== *)

Section CodecMore.
Import Codec.

Lemma words_loop_shift (b1 b2 : byte) (rest : list byte) (n i : nat) :
  (length rest - i <= n)%nat ->
  words_loop (b1 :: b2 :: rest) (i + 2) [] = words_loop rest i [].
Proof.
  revert i. induction n as [|n IH]; intros i Hn.
  - rewrite !words_loop_stop by (cbn [length]; lia). reflexivity.
  - destruct (decide (i < length rest)%nat) as [Hi|Hi].
    + rewrite (words_loop_cons (b1 :: b2 :: rest)) by (cbn [length]; lia).
      rewrite (words_loop_cons rest) by done.
      rewrite IH by lia. cbn [length].
      replace (i + 2)%nat with (S (S i)) by lia.
      replace (S (S i) + 1)%nat with (S (S (i + 1))) by lia.
      unfold byte_at. cbn [nth].
      destruct (decide (S (S (i + 1)) < S (S (length rest)))%nat),
               (decide (i + 1 < length rest)%nat); try lia; reflexivity.
    + rewrite !words_loop_stop by (cbn [length]; lia). reflexivity.
Qed.

Lemma convert_nil : convertBytesTo16BitInts [] = [].
Proof. reflexivity. Qed.

Lemma convert_one (b : byte) : convertBytesTo16BitInts [b] = [byte_val b].
Proof. reflexivity. Qed.

Lemma convert_pair (b1 b2 : byte) (rest : list byte) :
  convertBytesTo16BitInts (b1 :: b2 :: rest)
  = Z.lor (Z.shiftl (byte_val b1) 8) (byte_val b2)
    :: convertBytesTo16BitInts rest.
Proof.
  unfold convertBytesTo16BitInts.
  rewrite words_loop_cons by (cbn [length]; lia).
  rewrite (words_loop_shift b1 b2 rest (length rest) 0) by lia.
  cbn [length]. destruct (decide _) as [_|Hn]; [reflexivity|lia].
Qed.

Lemma even_list_ind {A : Type} (P : list A -> Prop) :
  P [] -> (forall x y l, P l -> P (x :: y :: l)) ->
  forall l, Nat.Even (length l) -> P l.
Proof.
  intros Hnil Hstep l. remember (length l) as n eqn:Hn.
  revert l Hn. induction n as [n IH] using lt_wf_ind. intros l Hn Hev.
  destruct l as [|x [|y l]].
  - done.
  - cbn in Hn. subst. destruct Hev as [k Hk]. lia.
  - apply Hstep. apply (IH (length l)); [cbn in Hn; lia|done|].
    cbn in Hn. subst. destruct Hev as [k Hk]. exists (k - 1)%nat. lia.
Qed.

(** X11: the words of a concatenation whose first part has an even
    number of bytes are the words of the parts, one after the other. *)
Theorem convert_app_even (pre rest : list byte) :
  Nat.Even (length pre) ->
  convertBytesTo16BitInts (pre ++ rest)
  = convertBytesTo16BitInts pre ++ convertBytesTo16BitInts rest.
Proof.
  intros Hev. revert pre Hev. apply (even_list_ind (fun pre => _)).
  - reflexivity.
  - intros x y l IH. cbn [app]. rewrite !convert_pair, IH. reflexivity.
Qed.

Lemma byte_of_Z_val (b : byte) : byte_of_Z (byte_val b) = b.
Proof.
  unfold byte_of_Z, byte_val. rewrite N2Z.id, Byte.of_to_N. reflexivity.
Qed.

Lemma split_word_pair (hi lo : byte) :
  split_word (Z.lor (Z.shiftl (byte_val hi) 8) (byte_val lo)) = [hi; lo].
Proof.
  pose proof (byte_val_range hi) as Hh. pose proof (byte_val_range lo) as Hl.
  unfold split_word. f_equal; [|f_equal].
  - rewrite Z.shiftr_lor, Z.shiftr_shiftl_l by lia. cbn [Z.sub Z.opp Z.add].
    rewrite Z.sub_diag, Z.shiftl_0_r.
    rewrite (Z.shiftr_div_pow2 (byte_val lo)) by lia.
    rewrite Z.div_small by (change (2 ^ 8) with 256; lia).
    rewrite Z.lor_0_r. apply byte_of_Z_val.
  - change 255 with (Z.ones 8). rewrite Z.land_lor_distr_l.
    rewrite !Z.land_ones by lia. rewrite Z.shiftl_mul_pow2 by lia.
    rewrite Z.mod_mul by (change (2 ^ 8) with 256; lia).
    rewrite Z.mod_small by (change (2 ^ 8) with 256; lia).
    rewrite Z.lor_0_l. apply byte_of_Z_val.
Qed.

Lemma split_word_single (b : byte) : split_word (byte_val b) = [x00; b].
Proof.
  pose proof (byte_val_range b) as Hb. unfold split_word. f_equal; [|f_equal].
  - rewrite Z.shiftr_div_pow2 by lia.
    rewrite Z.div_small by (change (2 ^ 8) with 256; lia). reflexivity.
  - change 255 with (Z.ones 8). rewrite Z.land_ones by lia.
    rewrite Z.mod_small by (change (2 ^ 8) with 256; lia).
    apply byte_of_Z_val.
Qed.

Lemma split_convert_even (pre : list byte) :
  Nat.Even (length pre) -> split_words (convertBytesTo16BitInts pre) = pre.
Proof.
  revert pre. apply (even_list_ind (fun pre => _)).
  - reflexivity.
  - intros x y l IH. rewrite convert_pair. unfold split_words in *.
    cbn [mbind list_bind]. rewrite split_word_pair.
    change (list_bind _ _ split_word (convertBytesTo16BitInts l))
      with (convertBytesTo16BitInts l ≫= split_word).
    rewrite IH. reflexivity.
Qed.

(** X12: splitting every word into its high and its low byte gives
    an even-length input back; for an odd-length input it gives the
    input with a zero byte before the last one, and that padded input
    has the same words: the words do not tell the two apart. *)
Theorem split_words_roundtrip (pre : list byte) (b : byte) :
  Nat.Even (length pre) ->
  split_words (convertBytesTo16BitInts pre) = pre
  /\ split_words (convertBytesTo16BitInts (pre ++ [b])) = pre ++ [x00; b]
  /\ convertBytesTo16BitInts (pre ++ [x00; b])
     = convertBytesTo16BitInts (pre ++ [b]).
Proof.
  intros Hev. split; [by apply split_convert_even|]. split.
  - revert pre Hev. apply (even_list_ind (fun pre => _)).
    + cbn [app]. rewrite convert_one. unfold split_words. cbn [mbind list_bind].
      rewrite split_word_single. reflexivity.
    + intros x y l IH. cbn [app]. rewrite convert_pair. unfold split_words in *.
      cbn [mbind list_bind]. rewrite split_word_pair.
      change (list_bind _ _ split_word (convertBytesTo16BitInts (l ++ [b])))
        with (convertBytesTo16BitInts (l ++ [b]) ≫= split_word).
      rewrite IH. reflexivity.
  - revert pre Hev. apply (even_list_ind (fun pre => _)).
    + cbn [app]. rewrite convert_pair, convert_one, convert_nil.
      reflexivity.
    + intros x y l IH. cbn [app]. rewrite !convert_pair, IH. reflexivity.
Qed.
End CodecMore.

Section DisplayFacts.
Import Display.
Local Open Scope nat_scope.

Lemma create_grid_eq :
  create_grid = Some (replicate maxRows (replicate maxCols (Some grey))).
Proof. vm_compute. reflexivity. Qed.

Lemma full_create : full (replicate maxRows (replicate maxCols (Some grey))).
Proof.
  split; [apply length_replicate|].
  apply Forall_replicate. split; [apply length_replicate|].
  apply Forall_replicate. by eexists.
Qed.

Lemma cell_create (row col : nat) :
  row < maxRows -> col < maxCols ->
  cell (replicate maxRows (replicate maxCols (Some grey))) row col = Some grey.
Proof.
  intros Hr Hc. unfold cell.
  rewrite lookup_replicate_2 by done. cbn [mbind option_bind].
  by rewrite lookup_replicate_2 by done.
Qed.

Lemma fill_full (squares : list (list Rectangle)) (row col : nat) (c : RGBA) :
  full squares -> row < maxRows -> col < maxCols ->
  exists squares' : list (list Rectangle),
    fill squares row col c = Some squares'
    /\ full squares'
    /\ forall row' col' : nat,
         cell squares' row' col'
         = if decide (row' = row /\ col' = col) then Some c
           else cell squares row' col'.
Proof.
  intros [Hlen Hall] Hr Hc.
  destruct (lookup_lt_is_Some_2 squares row) as [rs Hrs]; [lia|].
  pose proof (Forall_lookup_1 _ _ _ _ Hall Hrs) as [Hrl Hrsome].
  destruct (lookup_lt_is_Some_2 rs col) as [sq Hsq]; [lia|].
  pose proof (Forall_lookup_1 _ _ _ _ Hrsome Hsq) as [c0 ->].
  exists (<[row := <[col := Some c]> rs]> squares).
  split; [|split].
  - unfold fill, set_square. rewrite Hrs. cbn [mbind option_bind].
    rewrite Hsq. cbn [mbind option_bind].
    destruct (decide (col < length rs)); [done|lia].
  - split; [by rewrite length_insert|].
    apply Forall_insert; [done|]. split; [by rewrite length_insert|].
    apply Forall_insert; [done|by eexists].
  - intros row' col'. unfold cell.
    destruct (decide (row' = row)) as [->|Hne].
    + rewrite list_lookup_insert_eq by lia. cbn [mbind option_bind].
      destruct (decide (col' = col)) as [->|Hne'].
      * rewrite list_lookup_insert_eq by lia. cbn.
        destruct (decide _) as [_|Hn]; [done|by destruct Hn].
      * rewrite list_lookup_insert_ne by done. rewrite Hrs. cbn [mbind option_bind].
        destruct (decide _) as [[_ ?]|_]; [done|done].
    + rewrite list_lookup_insert_ne by done.
      destruct (decide _) as [[? _]|_]; [done|done].
Qed.

Lemma cell_index (row col n : nat) :
  col < maxCols ->
  (n / maxCols = row /\ n mod maxCols = col) <-> row * maxCols + col = n.
Proof.
  intros Hc. unfold maxCols in *.
  pose proof (Nat.div_mod_eq n 32) as Hd.
  pose proof (Nat.mod_upper_bound n 32 ltac:(lia)) as Hm.
  split.
  - intros [<- <-]. lia.
  - intros <-. split.
    + rewrite Nat.div_add_l, Nat.div_small by lia. lia.
    + rewrite Nat.add_comm, Nat.Div0.mod_add. by apply Nat.mod_small.
Qed.

(** One guarded store, the body of both loops over bit indexes. *)
Lemma write_bit (squares : list (list Rectangle)) (n : nat) (v : RGBA) :
  full squares ->
  exists squares' : list (list Rectangle),
    (if decide (n / maxCols < maxRows /\ n mod maxCols < maxCols)
     then fill squares (n / maxCols) (n mod maxCols) v
     else Some squares) = Some squares'
    /\ full squares'
    /\ forall row col : nat, row < maxRows -> col < maxCols ->
         cell squares' row col
         = if decide (row * maxCols + col = n) then Some v
           else cell squares row col.
Proof.
  intros Hfull. destruct (decide _) as [[Hr Hc]|Hout].
  - destruct (fill_full squares _ _ v Hfull Hr Hc) as (sq' & Hf & Hfull' & Hcell).
    exists sq'. split; [done|]. split; [done|].
    intros row col Hrow Hcol. rewrite Hcell.
    destruct (decide (row = _ /\ col = _)) as [[-> ->]|Hne].
    + destruct (decide _) as [_|Hn]; [done|].
      destruct Hn. by apply cell_index.
    + destruct (decide _) as [Heq|_]; [|done].
      apply cell_index in Heq as [<- <-]; [|done]. by destruct Hne.
  - exists squares. split; [done|]. split; [done|].
    intros row col Hrow Hcol. destruct (decide _) as [Heq|_]; [|done].
    apply cell_index in Heq as [<- <-]; [|done]. by destruct Hout.
Qed.

Lemma writes_seq (f : nat -> list (list Rectangle) -> option (list (list Rectangle)))
    (colour : nat -> RGBA) (o a k : nat) (squares : list (list Rectangle)) :
  (forall (n : nat) (sq : list (list Rectangle)),
     a <= n < a + k ->
     f n sq
     = if decide ((o + n) / maxCols < maxRows /\ (o + n) mod maxCols < maxCols)
       then fill sq ((o + n) / maxCols) ((o + n) mod maxCols) (colour (o + n))
       else Some sq) ->
  full squares ->
  exists squares' : list (list Rectangle),
    foldl (fun acc n => sq ← acc; f n sq) (Some squares) (seq a k) = Some squares'
    /\ full squares'
    /\ forall row col : nat, row < maxRows -> col < maxCols ->
         cell squares' row col
         = if decide (o + a <= row * maxCols + col < o + a + k)
           then Some (colour (row * maxCols + col))
           else cell squares row col.
Proof.
  revert a squares. induction k as [|k IH]; intros a squares Hf Hfull.
  - exists squares. split; [done|]. split; [done|].
    intros row col _ _. destruct (decide _); [lia|done].
  - cbn [seq foldl mbind option_bind]. rewrite Hf by lia.
    destruct (write_bit squares (o + a) (colour (o + a)) Hfull)
      as (sq1 & -> & Hfull1 & Hcell1).
    destruct (IH (S a) sq1) as (sq2 & Hfold & Hfull2 & Hcell2); [|done|].
    { intros n sq Hn. apply Hf. lia. }
    exists sq2. split; [done|]. split; [done|].
    intros row col Hrow Hcol. rewrite Hcell2, Hcell1 by done.
    repeat destruct (decide _); try done; try lia. congruence.
Qed.

Lemma foldl_step {A B : Type} (f : A -> B -> A) (a : A) (x : B) (l : list B) :
  foldl f a (x :: l) = foldl f (f a x) l.
Proof. reflexivity. Qed.

Lemma paint_bit_eq (dataBytes : list byte) (i j : nat)
    (squares : list (list Rectangle)) :
  j < 8 ->
  paint_bit dataBytes i j squares
  = if decide ((i * 8 + j) / maxCols < maxRows
               /\ (i * 8 + j) mod maxCols < maxCols)
    then fill squares ((i * 8 + j) / maxCols) ((i * 8 + j) mod maxCols)
              (bit_colour dataBytes (i * 8 + j))
    else Some squares.
Proof.
  intros Hj. unfold paint_bit, bit_colour. cbn zeta.
  replace ((i * 8 + j) / 8) with i
    by (rewrite Nat.div_add_l, Nat.div_small by lia; lia).
  replace ((i * 8 + j) mod 8) with j
    by (rewrite Nat.add_comm, Nat.Div0.mod_add; by rewrite Nat.mod_small).
  destruct (decide _); [|done]. by destruct (Codec.bit_of _ _).
Qed.

Lemma paint_bits_seq (dataBytes : list byte) (i0 k : nat)
    (squares : list (list Rectangle)) :
  full squares ->
  exists squares' : list (list Rectangle),
    foldl (fun acc i =>
             foldl (fun acc j => sq ← acc; paint_bit dataBytes i j sq)
                   acc (seq 0 8))
          (Some squares) (seq i0 k) = Some squares'
    /\ full squares'
    /\ forall row col : nat, row < maxRows -> col < maxCols ->
         cell squares' row col
         = if decide (i0 * 8 <= row * maxCols + col < (i0 + k) * 8)
           then Some (bit_colour dataBytes (row * maxCols + col))
           else cell squares row col.
Proof.
  revert i0 squares. induction k as [|k IH]; intros i0 squares Hfull.
  - exists squares. split; [done|]. split; [done|].
    intros row col _ _. destruct (decide _); [lia|done].
  - rewrite <- (cons_seq k i0), foldl_step. cbv beta.
    destruct (writes_seq (paint_bit dataBytes i0) (bit_colour dataBytes)
                (i0 * 8) 0 8 squares) as (sq1 & -> & Hfull1 & Hcell1);
      [|done|].
    { intros n sq Hn. apply paint_bit_eq. lia. }
    destruct (IH (S i0) sq1 Hfull1) as (sq2 & Hfold & Hfull2 & Hcell2).
    exists sq2. split; [done|]. split; [done|].
    intros row col Hrow Hcol. rewrite Hcell2, Hcell1 by done.
    repeat destruct (decide _); try done; lia.
Qed.

Lemma clear_unused_cells (dataBytes : list byte)
    (squares : list (list Rectangle)) :
  full squares ->
  exists squares' : list (list Rectangle),
    clear_unused dataBytes squares = Some squares'
    /\ full squares'
    /\ forall row col : nat, row < maxRows -> col < maxCols ->
         cell squares' row col
         = if decide (length dataBytes * 8 <= row * maxCols + col)
           then Some grey else cell squares row col.
Proof.
  intros Hfull. unfold clear_unused. cbn zeta.
  destruct (writes_seq clear_bit (fun _ => grey) 0 (length dataBytes * 8)
              (maxRows * maxCols - length dataBytes * 8) squares)
    as (sq1 & -> & Hfull1 & Hcell1); [|done|].
  { intros n sq _. reflexivity. }
  exists sq1. split; [done|]. split; [done|].
  intros row col Hrow Hcol. rewrite Hcell1 by done.
  unfold maxRows, maxCols in *.
  repeat destruct (decide _); try done; lia.
Qed.

Lemma show_data_spec (dataBytes : list byte) :
  exists squares : list (list Rectangle),
    show_data dataBytes = Some squares
    /\ full squares
    /\ forall row col : nat, row < maxRows -> col < maxCols ->
         cell squares row col
         = Some match dataBytes !! ((row * maxCols + col) / 8) with
                | Some b =>
                    if Codec.bit_of b ((row * maxCols + col) mod 8)
                    then green else grey
                | None => grey
                end.
Proof.
  unfold show_data. rewrite create_grid_eq. cbn [mbind option_bind].
  destruct (paint_bits_seq dataBytes 0 (length dataBytes) _ full_create)
    as (sq1 & Hp & Hfull1 & Hcell1).
  unfold paint_bits. rewrite Hp. cbn [mbind option_bind].
  destruct (clear_unused_cells dataBytes sq1 Hfull1)
    as (sq2 & -> & Hfull2 & Hcell2).
  exists sq2. split; [done|]. split; [done|].
  intros row col Hrow Hcol. rewrite Hcell2, Hcell1 by done.
  rewrite cell_create by done.
  pose proof (Nat.div_mod_eq (row * maxCols + col) 8) as Hd.
  pose proof (Nat.mod_upper_bound (row * maxCols + col) 8 ltac:(lia)) as Hm.
  destruct (decide (length dataBytes * 8 <= _)) as [Hge|Hlt].
  - rewrite lookup_ge_None_2; [done|]. lia.
  - destruct (decide _) as [_|Hn]; [|lia].
    destruct (lookup_lt_is_Some_2 dataBytes ((row * maxCols + col) / 8))
      as [b Hb]; [lia|].
    rewrite Hb. unfold bit_colour, byte_at.
    by rewrite (nth_lookup_Some _ _ _ _ Hb).
Qed.
(** X13: for every byte sequence the grid is built without a panic, has
    20 rows of 32 squares, and the square at row r, column c is green
    when bit 32r+c of the data (most significant bit of byte 0 first)
    exists and is 1, and grey otherwise. *)
Theorem show_data_cells (dataBytes : list byte) :
  exists squares : list (list Rectangle),
    show_data dataBytes = Some squares
    /\ length squares = 20
    /\ Forall (fun rowSquares => length rowSquares = 32) squares
    /\ forall row col : nat, row < 20 -> col < 32 ->
         cell squares row col
         = Some match dataBytes !! ((row * 32 + col) / 8) with
                | Some b =>
                    if Codec.bit_of b ((row * 32 + col) mod 8)
                    then green else grey
                | None => grey
                end.
Proof.
  destruct (show_data_spec dataBytes) as (squares & Hs & [Hlen Hrows] & Hcell).
  exists squares. split; [done|]. split; [done|]. split; [|exact Hcell].
  eapply Forall_impl; [exact Hrows|]. by intros rs [? _].
Qed.

End DisplayFacts.

Section SessionFacts.
Import Viewer.
Import Codec.
Context {W : Type} `{Transport W}.

Ltac go_unfold :=
  unfold handler_Connect, handler_Close, NewTCPClientHandler, client_AGReadDB,
    client_AGReadMB, make_bytes, make_chan, close_chan, go_loop, log,
    Lock, Unlock, bind, gets, modify, ret, panic in *.

(** The whole of [connectPLC] on a viewer without a client. *)
Lemma connectPLC_idle (ip : string) (m : Machine W) :
  mu (p m) = false -> client (p m) = None ->
  let h := mkHandler ip defaultRack defaultSlot 5000 60000 (handlers m) in
  let r := Connect h (world m) in
  connectPLC ip m
  = match r.1 with
    | Some e =>
        Done (Some ("连接PLC失败: " ++ e)%string)
             (mkMachine (p m) (chans m) (loops m) (S (handlers m)) r.2
                        (trace m ++ [EvConnect h]))
    | None =>
        Done None
             (mkMachine
                (mkViewer (Some (NewClient h)) (Some h) (running (p m))
                          (stopChan (p m)) false)
                (chans m) (loops m) (S (handlers m)) r.2
                (trace m ++ [EvConnect h]))
    end.
Proof.
  intros Hmu Hc. cbn zeta. unfold connectPLC. go_unfold.
  destruct m as [[c0 h0 r0 s0 mu0] cs ls hs w tr]. cbn in *. subst. cbn.
  destruct (Connect _ w) as [[e|] w']; reflexivity.
Qed.

(** The whole of [disconnectPLC]. *)
Lemma disconnectPLC_eq (m : Machine W) :
  mu (p m) = false ->
  disconnectPLC m
  = match client (p m), handler (p m) with
    | Some _, Some h =>
        Done tt (mkMachine
                   (mkViewer None None (running (p m)) (stopChan (p m)) false)
                   (chans m) (loops m) (handlers m) (Close h (world m))
                   (trace m ++ [EvClose h]))
    | Some _, None =>
        Done tt (mkMachine
                   (mkViewer None None (running (p m)) (stopChan (p m)) false)
                   (chans m) (loops m) (handlers m) (world m) (trace m))
    | None, _ => Done tt m
    end.
Proof.
  intros Hmu. unfold disconnectPLC. go_unfold.
  destruct m as [[c0 h0 r0 s0 mu0] cs ls hs w tr]. cbn in *. subst. cbn.
  destruct c0 as [c0|]; [destruct h0 as [h0|]|]; reflexivity.
Qed.

(** X1: on a viewer without a client, when the transport connects,
    [connectPLC] returns nil and keeps a handler for the given address
    with rack 0, slot 1, a 5 s timeout and a 60 s idle timeout, and a
    client on it; the mutex is free again and the poller is untouched. *)
Theorem connectPLC_success (ip : string) (m : Machine W) :
  mu (p m) = false -> client (p m) = None ->
  let h := mkHandler ip defaultRack defaultSlot 5000 60000 (handlers m) in
  (Connect h (world m)).1 = None ->
  connectPLC ip m
  = Done None
      (mkMachine
         (mkViewer (Some (NewClient h)) (Some h) (running (p m))
                   (stopChan (p m)) false)
         (chans m) (loops m) (S (handlers m)) (Connect h (world m)).2
         (trace m ++ [EvConnect h])).
Proof.
  intros Hmu Hc h Hok. rewrite connectPLC_idle by done. cbn zeta.
  fold h. by rewrite Hok.
Qed.

(** X2: on a viewer without a client, when the transport refuses,
    [connectPLC] returns the transport's error behind the prefix
    "连接PLC失败: " and leaves the viewer as it was: no client, no
    handler kept, the mutex free. *)
Theorem connectPLC_failure (ip : string) (e : error) (m : Machine W) :
  mu (p m) = false -> client (p m) = None ->
  let h := mkHandler ip defaultRack defaultSlot 5000 60000 (handlers m) in
  (Connect h (world m)).1 = Some e ->
  connectPLC ip m
  = Done (Some ("连接PLC失败: " ++ e)%string)
      (mkMachine (p m) (chans m) (loops m) (S (handlers m))
                 (Connect h (world m)).2 (trace m ++ [EvConnect h])).
Proof.
  intros Hmu Hc h Hko. rewrite connectPLC_idle by done. cbn zeta.
  fold h. by rewrite Hko.
Qed.

(** X3: [disconnectPLC] on a connected viewer closes the handler once,
    clears client and handler, and touches nothing else. *)
Theorem disconnectPLC_closes (c : Client) (h : TCPClientHandler)
    (m : Machine W) :
  mu (p m) = false -> client (p m) = Some c -> handler (p m) = Some h ->
  disconnectPLC m
  = Done tt (mkMachine
               (mkViewer None None (running (p m)) (stopChan (p m)) false)
               (chans m) (loops m) (handlers m) (Close h (world m))
               (trace m ++ [EvClose h])).
Proof.
  intros Hmu Hc Hh. rewrite disconnectPLC_eq by done. by rewrite Hc, Hh.
Qed.

(** X4: [disconnectPLC] always returns and leaves no client; on a
    viewer without a client it changes nothing, so a second disconnect
    is a no-op. *)
Theorem disconnectPLC_idempotent (m : Machine W) :
  mu (p m) = false ->
  exists m1 : Machine W,
    disconnectPLC m = Done tt m1
    /\ client (p m1) = None
    /\ (client (p m) = None -> m1 = m)
    /\ disconnectPLC m1 = Done tt m1.
Proof.
  intros Hmu. rewrite disconnectPLC_eq by done.
  destruct (client (p m)) as [c|] eqn:Hc; [destruct (handler (p m)) as [h|]|];
    eexists; (split; [reflexivity|]);
    (split; [done|]); (split; [done|]);
    rewrite disconnectPLC_eq by done; [done..|].
  by rewrite Hc.
Qed.


Lemma closed_snoc (tr : list Event) (e : Event) :
  closed_handlers (tr ++ [e])
  = closed_handlers tr
    ++ match e with EvClose h => [h] | _ => [] end.
Proof.
  unfold closed_handlers. rewrite omap_app. f_equal. by destruct e.
Qed.

Lemma same_session_refl (m : Machine W) : same_session m m.
Proof. by repeat split. Qed.

Lemma readVArea_session (startByte size : Z) (m m' : Machine W)
    (r : ReadResult) :
  readVArea startByte size m = Done r m' -> same_session m m'.
Proof.
  intros Hr. destruct (mu (p m)) eqn:Hmu.
  { by rewrite readVArea_held in Hr. }
  destruct (client (p m)) as [c|] eqn:Hc.
  2:{ rewrite readVArea_nil in Hr by done. simplify_eq. apply same_session_refl. }
  destruct (Z.ltb_spec size 0) as [Hneg|Hpos].
  { unfold readVArea in Hr. go_unfold. rewrite Hmu in Hr. cbn in Hr.
    rewrite Hc in Hr. destruct (Z.ltb_spec size 0); [done|lia]. }
  rewrite (readVArea_connected _ _ c) in Hr by done. cbn zeta in Hr.
  destruct (err _); [destruct (err _)|]; simplify_eq;
    (split_and!; cbn; try done; rewrite ?closed_snoc, ?app_nil_r; done).
Qed.

Lemma loop_tick_session (l : Loop) (m m' : Machine W) :
  loop_tick l m = Done tt m' -> same_session m m'.
Proof.
  rewrite loop_tick_eq.
  destruct (readVArea _ _ m) as [[data|e] m1| |] eqn:Hr; [| |done..].
  - apply readVArea_session in Hr as (Hc & Hh & Hn & Ht).
    destruct (toBits _ data); [|done].
    destruct (l_updateFn l); intros ?; simplify_eq;
      (split_and!; cbn; try done; rewrite ?closed_snoc, ?app_nil_r; done).
  - apply readVArea_session in Hr as (Hc & Hh & Hn & Ht).
    intros ?; simplify_eq.
    split_and!; cbn; try done. by rewrite closed_snoc, app_nil_r.
Qed.

Lemma loop_turn_session (k : nat) (sel : Select) (m m' : Machine W) :
  loop_turn k sel m = Done tt m' -> same_session m m'.
Proof.
  intros Hs. destruct (loops m !! k) as [l|] eqn:Hk.
  2:{ rewrite loop_turn_gone in Hs by eauto. simplify_eq. apply same_session_refl. }
  destruct (l_exited l) eqn:Hl.
  { rewrite loop_turn_gone in Hs by eauto. simplify_eq. apply same_session_refl. }
  destruct sel.
  - rewrite (loop_turn_stop k l) in Hs by done.
    case_decide; simplify_eq; by repeat split.
  - rewrite (loop_turn_tick k l) in Hs by done. by eapply loop_tick_session.
Qed.

Lemma startMonitoring_session (a l : Z) (f : option nat) (m m' : Machine W) :
  mu (p m) = false -> startMonitoring a l f m = Done tt m' -> same_session m m'.
Proof.
  intros Hmu Hs. destruct (running (p m)) eqn:Hr.
  - rewrite startMonitoring_running in Hs by done. simplify_eq.
    apply same_session_refl.
  - rewrite startMonitoring_idle in Hs by done. simplify_eq. by repeat split.
Qed.

Lemma stopMonitoring_session (m m' : Machine W) :
  poll_inv m -> stopMonitoring m = Done tt m' -> same_session m m'.
Proof.
  intros (Hmu & _ & _ & Hrun & _) Hs. destruct (running (p m)) eqn:Hr.
  - rewrite stopMonitoring_running in Hs by auto. simplify_eq.
    split_and!; cbn; try done. by rewrite closed_snoc, app_nil_r.
  - rewrite stopMonitoring_idle in Hs by done. simplify_eq.
    apply same_session_refl.
Qed.

Lemma session_inv_same (m m' : Machine W) :
  session_inv m -> same_session m m' -> session_inv m'.
Proof.
  unfold session_inv. intros Hinv (-> & -> & -> & ->). exact Hinv.
Qed.

Lemma session_inv_connect (ip : string) (r : option error) (m m' : Machine W) :
  mu (p m) = false -> session_inv m -> connectPLC ip m = Done r m' ->
  session_inv m'.
Proof.
  intros Hmu (Hch & Hnd & Hlt) Hs.
  destruct (client (p m)) as [c|] eqn:Hc.
  { rewrite connectPLC_connected in Hs by eauto. done. }
  destruct (handler (p m)) as [h0|] eqn:Hh; [done|].
  rewrite connectPLC_idle in Hs by done. cbn zeta in Hs.
  destruct (Connect _ (world m)).1; simplify_eq; unfold session_inv; cbn;
    rewrite ?Hc, ?Hh, closed_snoc, app_nil_r.
  - split_and!; try done. intros h Hin. specialize (Hlt h Hin). lia.
  - split_and!; try done.
    + lia.
    + intros Hin. specialize (Hlt _ Hin). cbn in Hlt. lia.
    + intros h Hin. specialize (Hlt h Hin). lia.
Qed.

Lemma session_inv_disconnect (m m' : Machine W) :
  mu (p m) = false -> session_inv m -> disconnectPLC m = Done tt m' ->
  session_inv m'.
Proof.
  intros Hmu (Hch & Hnd & Hlt) Hs. rewrite disconnectPLC_eq in Hs by done.
  destruct (client (p m)) as [c|] eqn:Hc;
    destruct (handler (p m)) as [h|] eqn:Hh; try done; simplify_eq.
  - destruct Hch as (-> & Hhid & Hnin).
    unfold session_inv; cbn. rewrite closed_snoc.
    split_and!; try done.
    + apply NoDup_app. split_and!; [done| |apply NoDup_singleton].
      intros x Hx Hx'%list_elem_of_singleton. by subst.
    + intros x [Hx|Hx%list_elem_of_singleton]%elem_of_app; [by apply Hlt|by subst].
  - unfold session_inv. by rewrite Hc, Hh.
Qed.

Lemma reachable_session (m : Machine W) : reachable m -> session_inv m.
Proof.
  intros Hm. induction Hm as [w|m m' o Hm IH Hop|m w Hm IH].
  - unfold session_inv. cbn. split_and!; [done|apply NoDup_nil_2|].
    intros h Hh. by apply elem_of_nil in Hh.
  - pose proof (reachable_inv m Hm) as Hinv. pose proof Hinv as (Hmu & _).
    destruct o as [ip| |a l|a l f| |k sel]; unfold run_op in Hop.
    + unfold bind, ret in Hop.
      destruct (connectPLC ip m) as [r m2| |] eqn:Hc; simplify_eq.
      by eapply session_inv_connect.
    + by eapply session_inv_disconnect.
    + unfold bind, ret in Hop.
      destruct (readOnce a l m) as [r m2| |] eqn:Hc; simplify_eq.
      eapply session_inv_same; [done|].
      rewrite readOnce_readVArea in Hc. by eapply readVArea_session.
    + eapply session_inv_same; [done|]. by eapply startMonitoring_session.
    + eapply session_inv_same; [done|]. by eapply stopMonitoring_session.
    + eapply session_inv_same; [done|]. by eapply loop_turn_session.
  - eapply session_inv_same; [done|]. by repeat split.
Qed.


(** X5: in every reachable state client and handler are both nil or
    both set, the client wraps the handler, the handler in use has not
    been closed, and no handler has been closed twice. *)
Theorem session_consistent (m : Machine W) :
  reachable m ->
  (client (p m) = None <-> handler (p m) = None)
  /\ (forall c : Client, client (p m) = Some c ->
        exists h : TCPClientHandler,
          handler (p m) = Some h /\ c = NewClient h
          /\ h ∉ closed_handlers (trace m))
  /\ NoDup (closed_handlers (trace m)).
Proof.
  intros Hm. destruct (reachable_session m Hm) as (Hch & Hnd & _).
  destruct (client (p m)) as [c|], (handler (p m)) as [h|]; try done.
  destruct Hch as (-> & _ & Hnin). split_and!; [done| |done].
  intros c Hc. simplify_eq. eauto.
Qed.

Lemma held_blocks (m : Machine W) :
  mu (p m) = true ->
  (forall a s : Z, readVArea a s m = Blocked m)
  /\ (forall a l : Z, readOnce a l m = Blocked m)
  /\ (forall ip : string, connectPLC ip m = Blocked m)
  /\ disconnectPLC m = Blocked m
  /\ (forall (a l : Z) (f : option nat), startMonitoring a l f m = Blocked m)
  /\ stopMonitoring m = Blocked m
  /\ (forall (k : nat) (l : Loop), loops m !! k = Some l -> l_exited l = false ->
        loop_turn k RecvTick m = Blocked m).
Proof.
  intros Hmu. split_and!.
  - intros a s. by apply readVArea_held.
  - intros a l. rewrite readOnce_readVArea. by apply readVArea_held.
  - intros ip. unfold connectPLC. go_unfold. by rewrite Hmu.
  - unfold disconnectPLC. go_unfold. by rewrite Hmu.
  - intros a l f. unfold startMonitoring. go_unfold. by rewrite Hmu.
  - unfold stopMonitoring. go_unfold. by rewrite Hmu.
  - intros k l Hk Hl. rewrite (loop_turn_tick k l) by done.
    rewrite loop_tick_eq. by rewrite readVArea_held.
Qed.

(** X6: the blocked reconnect leaves the mutex held for good: every
    later [readOnce], [connectPLC], [disconnectPLC], [startMonitoring],
    [stopMonitoring] and every tick of a polling loop waits for ever. *)
Theorem reconnect_wedges (ip : string) (m : Machine W) :
  mu (p m) = false -> is_Some (client (p m)) ->
  exists m1 : Machine W,
    connectPLC ip m = Blocked m1
    /\ (forall a l : Z, readOnce a l m1 = Blocked m1)
    /\ (forall ip' : string, connectPLC ip' m1 = Blocked m1)
    /\ disconnectPLC m1 = Blocked m1
    /\ (forall (a l : Z) (f : option nat), startMonitoring a l f m1 = Blocked m1)
    /\ stopMonitoring m1 = Blocked m1
    /\ (forall (k : nat) (l : Loop), loops m1 !! k = Some l -> l_exited l = false ->
          loop_turn k RecvTick m1 = Blocked m1).
Proof.
  intros Hmu Hc. exists (with_p (set_mu true) m).
  split; [by apply connectPLC_connected|].
  destruct (held_blocks (with_p (set_mu true) m) eq_refl)
    as (_ & ? & ? & ? & ? & ? & ?).
  by split_and!.
Qed.

(** X7: when the read of a tick succeeds, the update function, if
    there is one, gets called once with eight bits per byte read, 8 to
    32 in all, from which the bytes read are recovered; with a nil
    update function nothing is added. *)
Theorem tick_delivers_bits (m m' : Machine W) (k : nat) (l : Loop)
    (data : list byte) :
  loops m !! k = Some l -> l_exited l = false ->
  readVArea (l_startAddr l) (clamp 4 (l_len l)) m = Done (ReadOk data) m' ->
  exists bits : list bool,
    loop_turn k RecvTick m
    = Done tt match l_updateFn l with
              | Some fn => emit (EvUpdate fn bits) m'
              | None => m'
              end
    /\ length bits = (8 * Z.to_nat (clamp 4 (l_len l)))%nat
    /\ (8 <= length bits <= 32)%nat
    /\ regroup bits = data.
Proof.
  intros Hk Hl Hr. rewrite (loop_turn_tick k l) by done.
  rewrite loop_tick_eq, Hr.
  pose proof (readVArea_ok_length _ _ _ _ _ Hr) as Hlen.
  assert (clamp 4 (l_len l) = Z.of_nat (length data)) as Hn
    by (unfold clamp in *; lia).
  rewrite Hn, toBits_bind.
  exists (data ≫= fun b => bit_of b <$> seq 0 8).
  split; [by destruct (l_updateFn l)|].
  rewrite bind_bits_length, regroup_bind. split_and!; [lia| | |done].
  all: unfold clamp in *; lia.
Qed.

(** X8: a [readOnce] that returns has changed nothing of the viewer,
    the channels or the loops; it has made no transport call, or one
    data-block read, or a data-block read followed by a flat-memory
    read, each for the given start and between 1 and 80 bytes. *)
Theorem readOnce_footprint (a len : Z) (r : ReadResult) (m m' : Machine W) :
  readOnce a len m = Done r m' ->
  p m' = p m /\ chans m' = chans m /\ loops m' = loops m
  /\ handlers m' = handlers m
  /\ 1 <= clamp 80 len <= 80
  /\ (trace m' = trace m
      \/ trace m' = trace m ++ [EvReadDB 1 a (clamp 80 len)]
      \/ trace m' = trace m ++ [EvReadDB 1 a (clamp 80 len);
                                EvReadMB a (clamp 80 len)]).
Proof.
  rewrite readOnce_readVArea. intros Hr.
  assert (1 <= clamp 80 len <= 80) as [Hlo Hhi] by (unfold clamp; lia).
  destruct (mu (p m)) eqn:Hmu.
  { by rewrite readVArea_held in Hr. }
  destruct (client (p m)) as [c|] eqn:Hc.
  2:{ rewrite readVArea_nil in Hr by done. simplify_eq. split_and!; auto. }
  rewrite (readVArea_connected _ _ c) in Hr by (done || lia). cbn zeta in Hr.
  destruct (err _); [destruct (err _)|]; simplify_eq; cbn;
    rewrite <- ?app_assoc; split_and!; auto.
Qed.

(** X9: after a disconnect, a tick of a polling loop makes no
    transport call: it logs "读取数据失败: PLC未连接" and the loop
    goes on. *)
Theorem tick_after_disconnect (m m1 : Machine W) (k : nat) (l : Loop) :
  mu (p m) = false -> disconnectPLC m = Done tt m1 ->
  loops m !! k = Some l -> l_exited l = false ->
  loop_turn k RecvTick m1
  = Done tt (emit (EvLog "读取数据失败: PLC未连接"%string) m1).
Proof.
  intros Hmu Hd Hk Hl.
  assert (mu (p m1) = false /\ client (p m1) = None /\ loops m1 = loops m)
    as (Hmu1 & Hc1 & Hl1).
  { rewrite disconnectPLC_eq in Hd by done.
    destruct (client (p m)) eqn:Hc; [destruct (handler (p m))|];
      by simplify_eq. }
  rewrite (loop_turn_tick k l) by (by rewrite ?Hl1).
  rewrite loop_tick_eq, readVArea_nil by done. reflexivity.
Qed.

(** X10: while running there is a loop on the current channel that
    has not returned; after [stopMonitoring] its stop case is enabled,
    taking it makes the loop return, and no later turn of that loop
    does anything. *)
Theorem stop_then_exit (m : Machine W) :
  reachable m -> running (p m) = true ->
  exists (k : nat) (l : Loop) (m1 m2 : Machine W),
    loops m !! k = Some l /\ l_exited l = false
    /\ l_stopChan l = stopChan (p m)
    /\ stopMonitoring m = Done tt m1
    /\ loop_turn k RecvStop m1 = Done tt m2
    /\ loops m2 !! k = Some (exit_loop l)
    /\ forall sel : Select, loop_turn k sel m2 = Done tt m2.
Proof.
  intros Hm Hr. pose proof (reachable_inv m Hm) as Hinv.
  pose proof Hinv as (Hmu & _ & Hopen & Hrun & Hact & _).
  rewrite Hr in Hact. specialize (Hrun Hr).
  destruct (active m) as [|l [|]] eqn:Ha; try done.
  assert (l ∈ active m) as Hin by (rewrite Ha; left).
  apply list_elem_of_filter in Hin as [Hlo Hin].
  destruct (Hopen l Hin Hlo) as (_ & Hsc & Hlive).
  apply list_elem_of_lookup in Hin as [k Hk].
  assert (stopChan (p m) < length (chans m))%nat as Hlt
    by (eapply lookup_lt_Some; exact Hrun).
  eexists k, l, _, _. split; [done|]. split; [done|]. split; [done|].
  split; [by apply stopMonitoring_running|].
  split.
  { rewrite (loop_turn_stop k l) by done. cbn [chans].
    rewrite Hsc, list_lookup_insert_eq by done.
    destruct (decide _) as [_|Hn]; [reflexivity|done]. }
  split.
  { cbn. apply list_lookup_insert_eq. by eapply lookup_lt_Some. }
  intros sel. apply loop_turn_gone. right. exists (exit_loop l). split; [|done].
  cbn. apply list_lookup_insert_eq. by eapply lookup_lt_Some.
Qed.

Lemma button_clamp (len : Z) : Display.button_bytesToRead len = clamp 80 len.
Proof.
  unfold Display.button_bytesToRead, Display.maxDisplayBytes, clamp. cbn zeta.
  destruct (Z.leb_spec len 0); destruct (Z.gtb_spec 1 80);
    destruct (Z.gtb_spec len 80); lia.
Qed.

(** X14: the read button reads the window [readOnce] would read for the
    raw length, and every bit of the bytes it gets has its square on the
    grid: bit j of byte i at row (8i+j)/32, column (8i+j) mod 32, green
    for 1 and grey for 0. *)
Theorem read_button_shows_all (a len : Z) (m m' : Machine W)
    (data : list byte) :
  readOnce a (Display.button_bytesToRead len) m = Done (ReadOk data) m' ->
  readOnce a (Display.button_bytesToRead len) m = readOnce a len m
  /\ Z.of_nat (length data) = Display.button_bytesToRead len
  /\ exists squares : list (list Display.Rectangle),
       Display.show_data data = Some squares
       /\ forall (i j : nat) (b : byte),
            data !! i = Some b -> (j < 8)%nat ->
            Display.cell squares ((i * 8 + j) / 32) ((i * 8 + j) mod 32)
            = Some (if bit_of b j then Display.green else Display.grey).
Proof.
  intros Hr. pose proof Hr as Hlen. rewrite readOnce_readVArea in Hlen.
  apply readVArea_ok_length in Hlen. rewrite !button_clamp in *.
  assert (clamp 80 (clamp 80 len) = clamp 80 len) as Hcc
    by (unfold clamp; lia).
  rewrite Hcc in Hlen.
  split; [by rewrite !readOnce_readVArea, Hcc|].
  split; [unfold clamp in *; lia|].
  destruct (show_data_spec data) as (squares & Hs & _ & Hcell).
  exists squares. split; [done|]. intros i j b Hb Hj.
  assert (i < length data)%nat as Hi by (by eapply lookup_lt_Some).
  assert (i * 8 + j < 640)%nat as Hn by (unfold clamp in *; lia).
  unfold Display.maxRows, Display.maxCols in Hcell.
  pose proof (Nat.div_mod_eq (i * 8 + j) 32) as Hd.
  pose proof (Nat.mod_upper_bound (i * 8 + j) 32 ltac:(lia)) as Hm.
  rewrite Hcell by (try apply Nat.Div0.div_lt_upper_bound; lia).
  replace ((i * 8 + j) / 32 * 32 + (i * 8 + j) mod 32)%nat
    with (i * 8 + j)%nat by lia.
  replace ((i * 8 + j) / 8)%nat with i
    by (rewrite Nat.div_add_l, Nat.div_small by lia; lia).
  replace ((i * 8 + j) mod 8)%nat with j
    by (rewrite Nat.add_comm, Nat.Div0.mod_add; by rewrite Nat.mod_small).
  by rewrite Hb.
Qed.

End SessionFacts.

(* --------------------------------------------------------------------- *)
(* Further runs on the simulated PLC                                     *)
(* --------------------------------------------------------------------- *)

Section MoreScenarios.
Import Viewer.

(** A first connect to a PLC that answers. *)
Lemma connectPLC_success_witness :
  mu (p (sim_new true true)) = false
  /\ client (p (sim_new true true)) = None
  /\ connectPLC "192.168.1.11" (sim_new true true)
     = Done None (sim_connected true true).
Proof.
  assert (mu (p (sim_new true true)) = false) as Hmu by reflexivity.
  assert (client (p (sim_new true true)) = None) as Hc by reflexivity.
  split; [exact Hmu|]. split; [exact Hc|].
  etransitivity.
  - apply (connectPLC_success "192.168.1.11" (sim_new true true) Hmu Hc).
    vm_compute. reflexivity.
  - vm_compute. reflexivity.
Defined.

(** A connect to a PLC that does not answer. *)
Lemma connectPLC_failure_witness :
  mu (p sim_offline) = false
  /\ client (p sim_offline) = None
  /\ connectPLC "192.168.1.11" sim_offline
     = Done (Some "连接PLC失败: dial tcp: i/o timeout"%string)
            (state_of (connectPLC "192.168.1.11" sim_offline)).
Proof.
  assert (mu (p sim_offline) = false) as Hmu by reflexivity.
  assert (client (p sim_offline) = None) as Hc by reflexivity.
  split; [exact Hmu|]. split; [exact Hc|].
  etransitivity.
  - apply (connectPLC_failure "192.168.1.11" "dial tcp: i/o timeout"%string
             sim_offline Hmu Hc).
    vm_compute. reflexivity.
  - vm_compute. reflexivity.
Defined.

(** Disconnecting the connected viewer closes handler 0. *)
Lemma disconnectPLC_closes_witness :
  mu (p (sim_connected true true)) = false
  /\ trace (state_of (disconnectPLC (sim_connected true true)))
     = [EvConnect (mkHandler "192.168.1.11" 0 1 5000 60000 0);
        EvClose (mkHandler "192.168.1.11" 0 1 5000 60000 0)].
Proof.
  assert (mu (p (sim_connected true true)) = false) as Hmu
    by (vm_compute; reflexivity).
  split; [exact Hmu|].
  rewrite (disconnectPLC_closes
             (NewClient (mkHandler "192.168.1.11" 0 1 5000 60000 0))
             (mkHandler "192.168.1.11" 0 1 5000 60000 0)
             (sim_connected true true) Hmu)
    by (vm_compute; reflexivity).
  vm_compute. reflexivity.
Defined.

(** Disconnecting twice. *)
Lemma disconnectPLC_idempotent_witness :
  mu (p (sim_connected true true)) = false
  /\ exists m1 : Machine SimPLC,
       disconnectPLC (sim_connected true true) = Done tt m1
       /\ disconnectPLC m1 = Done tt m1.
Proof.
  assert (mu (p (sim_connected true true)) = false) as Hmu
    by (vm_compute; reflexivity).
  split; [exact Hmu|].
  destruct (disconnectPLC_idempotent (sim_connected true true) Hmu)
    as (m1 & Hd & _ & _ & Hd2).
  exists m1. split; [exact Hd|exact Hd2].
Defined.

(** The polling viewer is connected through a handler never closed. *)
Lemma session_consistent_witness :
  reachable (sim_polling true true)
  /\ NoDup (closed_handlers (trace (sim_polling true true))).
Proof.
  split; [apply sim_polling_reachable|].
  apply (session_consistent (sim_polling true true)).
  apply sim_polling_reachable.
Defined.

(** A second connect on the connected viewer, then a read. *)
Lemma reconnect_wedges_witness :
  mu (p (sim_connected true true)) = false
  /\ is_Some (client (p (sim_connected true true)))
  /\ exists m1 : Machine SimPLC,
       connectPLC "192.168.1.12" (sim_connected true true) = Blocked m1
       /\ readOnce 0 1 m1 = Blocked m1.
Proof.
  assert (mu (p (sim_connected true true)) = false) as Hmu
    by (vm_compute; reflexivity).
  assert (is_Some (client (p (sim_connected true true)))) as Hc
    by (eexists; vm_compute; reflexivity).
  split; [exact Hmu|]. split; [exact Hc|].
  destruct (reconnect_wedges "192.168.1.12" (sim_connected true true) Hmu Hc)
    as (m1 & Hb & Hr & _).
  exists m1. split; [exact Hb|apply Hr].
Defined.

(** A tick of loop 1 reads V2..V5 and decodes 32 bits. *)
Lemma tick_delivers_bits_witness :
  loops (sim_polling true true) !! 1%nat = Some (mkLoop 2 2 9 None false)
  /\ readVArea 2 (clamp 4 9) (sim_polling true true)
     = Done (ReadOk [x03; xb0; xff; x00])
            (state_of (readVArea 2 (clamp 4 9) (sim_polling true true)))
  /\ exists bits : list bool,
       length bits = 32%nat /\ Codec.regroup bits = [x03; xb0; xff; x00].
Proof.
  assert (loops (sim_polling true true) !! 1%nat
          = Some (mkLoop 2 2 9 None false)) as Hk
    by (vm_compute; reflexivity).
  assert (readVArea 2 (clamp 4 9) (sim_polling true true)
          = Done (ReadOk [x03; xb0; xff; x00])
                 (state_of (readVArea 2 (clamp 4 9) (sim_polling true true))))
    as Hr by (vm_compute; reflexivity).
  split; [exact Hk|]. split; [exact Hr|].
  destruct (tick_delivers_bits (sim_polling true true) _ 1
              (mkLoop 2 2 9 None false) _ Hk eq_refl Hr)
    as (bits & _ & Hlen & _ & Hre).
  exists bits. split; [exact Hlen|exact Hre].
Defined.

(** A three-byte read on the connected viewer. *)
Lemma readOnce_footprint_witness :
  readOnce 0 3 (sim_connected true true)
  = Done (ReadOk [x01; x02; x03])
         (state_of (readOnce 0 3 (sim_connected true true)))
  /\ p (state_of (readOnce 0 3 (sim_connected true true)))
     = p (sim_connected true true).
Proof.
  assert (readOnce 0 3 (sim_connected true true)
          = Done (ReadOk [x01; x02; x03])
                 (state_of (readOnce 0 3 (sim_connected true true)))) as Hr
    by (vm_compute; reflexivity).
  split; [exact Hr|].
  apply (readOnce_footprint 0 3 _ (sim_connected true true) _ Hr).
Defined.

(** Disconnect while polling, then a tick of loop 1. *)
Lemma tick_after_disconnect_witness :
  mu (p (sim_polling true true)) = false
  /\ loops (sim_polling true true) !! 1%nat = Some (mkLoop 2 2 9 None false)
  /\ exists m1 : Machine SimPLC,
       disconnectPLC (sim_polling true true) = Done tt m1
       /\ loop_turn 1 RecvTick m1
          = Done tt (emit (EvLog "读取数据失败: PLC未连接"%string) m1).
Proof.
  assert (mu (p (sim_polling true true)) = false) as Hmu
    by (vm_compute; reflexivity).
  assert (loops (sim_polling true true) !! 1%nat
          = Some (mkLoop 2 2 9 None false)) as Hk
    by (vm_compute; reflexivity).
  assert (disconnectPLC (sim_polling true true)
          = Done tt (state_of (disconnectPLC (sim_polling true true)))) as Hd
    by (vm_compute; reflexivity).
  split; [exact Hmu|]. split; [exact Hk|].
  eexists. split; [exact Hd|].
  exact (tick_after_disconnect (sim_polling true true) _ 1
           (mkLoop 2 2 9 None false) Hmu Hd Hk eq_refl).
Defined.

(** Stopping the polling viewer lets its loop return. *)
Lemma stop_then_exit_witness :
  reachable (sim_polling true true)
  /\ running (p (sim_polling true true)) = true
  /\ exists (k : nat) (m1 m2 : Machine SimPLC),
       stopMonitoring (sim_polling true true) = Done tt m1
       /\ loop_turn k RecvStop m1 = Done tt m2
       /\ loop_turn k RecvTick m2 = Done tt m2.
Proof.
  assert (running (p (sim_polling true true)) = true) as Hr
    by (vm_compute; reflexivity).
  split; [apply sim_polling_reachable|]. split; [exact Hr|].
  destruct (stop_then_exit (sim_polling true true)
              (sim_polling_reachable true true) Hr)
    as (k & l & m1 & m2 & _ & _ & _ & Hs & Ht & _ & Hg).
  exists k, m1, m2. split; [exact Hs|]. split; [exact Ht|apply Hg].
Defined.

(** The button's read for a length of 1000 returns 80 bytes. *)
Lemma read_button_shows_all_witness :
  readOnce 0 (Display.button_bytesToRead 1000) (sim_connected true true)
  = Done (ReadOk (read_data (readOnce 0 80 (sim_connected true true))))
         (state_of (readOnce 0 80 (sim_connected true true)))
  /\ Z.of_nat (length (read_data (readOnce 0 80 (sim_connected true true))))
     = 80.
Proof.
  assert (readOnce 0 (Display.button_bytesToRead 1000) (sim_connected true true)
          = Done (ReadOk (read_data (readOnce 0 80 (sim_connected true true))))
                 (state_of (readOnce 0 80 (sim_connected true true)))) as Hr
    by (vm_compute; reflexivity).
  split; [exact Hr|].
  apply (read_button_shows_all 0 1000 (sim_connected true true) _ _ Hr).
Defined.

End MoreScenarios.

Section CodecScenarios.
Import Codec.

(** Two bytes, then one. *)
Lemma convert_app_even_witness :
  Nat.Even (length [x01; x02])
  /\ convertBytesTo16BitInts ([x01; x02] ++ [x03]) = [258; 3].
Proof.
  assert (Nat.Even (length [x01; x02])) as Hev by (exists 1%nat; reflexivity).
  split; [exact Hev|].
  rewrite (convert_app_even [x01; x02] [x03] Hev). reflexivity.
Defined.

(** Three bytes come back as four. *)
Lemma split_words_roundtrip_witness :
  Nat.Even (length [x01; x02])
  /\ split_words (convertBytesTo16BitInts ([x01; x02] ++ [x03]))
     = [x01; x02; x00; x03].
Proof.
  assert (Nat.Even (length [x01; x02])) as Hev by (exists 1%nat; reflexivity).
  split; [exact Hev|].
  apply (split_words_roundtrip [x01; x02] x03 Hev).
Defined.

End CodecScenarios.

(* --------------------------------------------------------------------- *)
(* Two callers of startMonitoring                                        *)
(* --------------------------------------------------------------------- *)

Section StartInterleaving.
Import Viewer.
Context {W : Type} `{Transport W}.
Local Open Scope nat_scope.

Lemma has_set_le (pc : StartPc) : has_set pc <= will_launch pc.
Proof. destruct pc; cbn; lia. Qed.

Lemma two_inv_swap (m0 m : Machine W) (pc1 pc2 : StartPc) :
  two_inv m0 (pc1, pc2, m) -> two_inv m0 (pc2, pc1, m).
Proof.
  intros (Hmu & Hex & Hext & (new & Hl & Hle & Hrun) & H1 & H2).
  unfold two_inv. split_and!; try done.
  - by rewrite orb_comm.
  - by rewrite andb_comm.
  - exists new. split_and!; [done|lia|]. rewrite Hrun. lia.
Qed.

(** A statement of the first caller keeps the invariant. *)
Lemma two_inv_step (c : StartArgs) (m0 m m' : Machine W)
    (pc1 pc1' pc2 : StartPc) :
  two_inv m0 (pc1, pc2, m) -> start_step c pc1 m = Some (pc1', m') ->
  two_inv m0 (pc1', pc2, m').
Proof.
  intros (Hmu & Hex & [ext Hext] & (new & Hl & Hle & Hrun) & H1 & H2) Hs.
  pose proof (has_set_le pc2) as Hle2.
  destruct pc1; cbn in Hs, Hmu, Hex, Hle, Hrun.
  - (* Lock *)
    unfold Lock in Hs. destruct (mu (p m)) eqn:Em; [done|]. simplify_eq.
    unfold two_inv. cbn. rewrite <- Hmu.
    split; [done|]. split; [done|]. split; [by exists ext|].
    split; [by exists new|]. split; [by intros [?|?]|done].
  - (* the test of the flag *)
    injection Hs as Hpc Hm. subst pc1' m'.
    destruct (running (p m)) eqn:Er; unfold two_inv; cbn; rewrite ?Er.
    + split; [done|]. split; [done|]. split; [by exists ext|].
      split; [by exists new|]. done.
    + assert (length new + has_set pc2 = 0) as Hz.
      { destruct (decide (length new + has_set pc2 = 1)) as [Heq|Hne]; [|lia].
        destruct Hrun as [_ Hrun]. by specialize (Hrun ltac:(lia)). }
      assert (will_launch pc2 = 0) as Hw2
        by (destruct pc2; cbn in Hex, Hz |- *; first [done|lia]).
      assert (length new = 0) as Hn by lia.
      split; [done|]. split; [done|]. split; [by exists ext|].
      split.
      { exists new. split; [done|]. split; [lia|]. split; [done|lia]. }
      split; [by intros [?|?]|]. intros Hp2. by specialize (H2 Hp2).
  - (* Unlock and return *)
    unfold Unlock in Hs. destruct (mu (p m)) eqn:Em; [|done]. simplify_eq.
    specialize (H1 (or_introl eq_refl)).
    unfold two_inv. cbn. rewrite Hex.
    split; [done|]. split; [done|]. split; [by exists ext|].
    split; [by exists new|]. done.
  - (* running = true *)
    simplify_eq. unfold two_inv. cbn.
    split; [done|]. split; [done|]. split; [by exists ext|].
    split.
    { exists new. split; [done|]. split; [lia|]. split; [lia|done]. }
    split; [by intros [?|?]|done].
  - (* make *)
    unfold make_chan, bind, gets, modify, ret in Hs. simplify_eq.
    unfold two_inv. cbn.
    split; [done|]. split; [done|].
    split; [exists (ext ++ [false]); by rewrite Hext, <- app_assoc|].
    split; [by exists new|]. split; [by intros [?|?]|done].
  - (* p.stopChan = stopChan *)
    simplify_eq. unfold two_inv. cbn.
    split; [done|]. split; [done|]. split; [by exists ext|].
    split; [by exists new|]. split; [by intros [?|?]|done].
  - (* Unlock *)
    unfold Unlock in Hs. destruct (mu (p m)) eqn:Em; [|done]. simplify_eq.
    unfold two_inv. cbn. rewrite Hex.
    split; [done|]. split; [done|]. split; [by exists ext|].
    split; [by exists new|]. split; [by intros [?|?]|done].
  - (* go *)
    unfold go_loop, modify in Hs. simplify_eq.
    assert (running (p m) = true) as Er by (apply Hrun; lia).
    unfold two_inv. cbn. rewrite Er.
    split; [done|]. split; [done|]. split; [by exists ext|].
    split; [|done].
    eexists (new ++ [_]). rewrite Hl, <- app_assoc, length_app. cbn.
    split; [done|]. split; [lia|]. split; [lia|done].
  - done.
Qed.


Lemma two_inv_run (c1 c2 : StartArgs) (m0 : Machine W) (sched : list bool)
    (s : StartPc * StartPc * Machine W) :
  two_inv m0 s -> two_inv m0 (two_run c1 c2 sched s).
Proof.
  unfold two_run. revert s.
  induction sched as [|first sched IH]; intros s Hs; [done|].
  cbn [foldl]. apply IH. destruct s as [[pc1 pc2] m]. unfold two_step.
  destruct first.
  - destruct (start_step c1 pc1 m) as [[pc1' m']|] eqn:Hst; [|done].
    by eapply two_inv_step.
  - destruct (start_step c2 pc2 m) as [[pc2' m']|] eqn:Hst; [|done].
    apply two_inv_swap. eapply two_inv_step; [|done]. by apply two_inv_swap.
Qed.

Lemma two_inv_init (m : Machine W) :
  mu (p m) = false -> running (p m) = false -> two_inv m (AtLock, AtLock, m).
Proof.
  intros Hmu Hr. unfold two_inv. cbn.
  split; [done|]. split; [done|]. split; [exists []; by rewrite app_nil_r|].
  split.
  { exists []. rewrite app_nil_r, Hr. cbn. split; [done|]. split; [lia|].
    split; [done|lia]. }
  split; by intros [?|?].
Qed.

(** One caller running alone, statement by statement, does what
    [startMonitoring] does. *)
Lemma start_alone (c c2 : StartArgs) (pc2 : StartPc) (m : Machine W) :
  mu (p m) = false ->
  exists m1 : Machine W,
    startMonitoring (s_startAddress c) (s_length c) (s_updateFunc c) m
    = Done tt m1
    /\ two_run c c2 (replicate 7 true) (AtLock, pc2, m) = (Returned, pc2, m1).
Proof.
  intros Hmu. destruct (running (p m)) eqn:Hr.
  - exists m. split; [by apply startMonitoring_running|].
    destruct m as [[c0 h0 r0 s0 mu0] cs ls hs w tr]. cbn in *. by subst.
  - eexists. split; [by apply startMonitoring_idle|].
    destruct m as [[c0 h0 r0 s0 mu0] cs ls hs w tr]. cbn in *. by subst.
Qed.

Lemma startMonitoring_held (a l : Z) (f : option nat) (m : Machine W) :
  mu (p m) = true -> startMonitoring a l f m = Blocked m.
Proof.
  intros Hmu. unfold startMonitoring, bind, Lock. by rewrite Hmu.
Qed.

(** Two interleaved callers on a stopped viewer. *)
Lemma two_starts (c1 c2 : StartArgs) (sched : list bool) (m m' : Machine W)
    (pc1 pc2 : StartPc) :
  poll_inv m -> running (p m) = false ->
  two_run c1 c2 sched (AtLock, AtLock, m) = (pc1, pc2, m') ->
  in_guard pc1 && in_guard pc2 = false
  /\ mu (p m') = in_guard pc1 || in_guard pc2
  /\ (exists new : list Loop,
        loops m' = loops m ++ new /\ length new <= 1
        /\ (pc1 = Returned -> pc2 = Returned ->
            length new = 1 /\ running (p m') = true))
  /\ length (active m') <= 1
  /\ (pc1 <> Returned -> (pc1 = AtLock -> in_guard pc2 = false) ->
      is_Some (start_step c1 pc1 m'))
  /\ (pc2 <> Returned -> (pc2 = AtLock -> in_guard pc1 = false) ->
      is_Some (start_step c2 pc2 m')).
Proof.
  intros Hinv Hr Hrun. pose proof Hinv as (Hmu & Hlt & _).
  pose proof (two_inv_run c1 c2 m sched _ (two_inv_init m Hmu Hr)) as Htwo.
  rewrite Hrun in Htwo.
  destruct Htwo as (Hmu' & Hex & [ext Hext] & (new & Hl & Hle & Hflag) & H1 & H2).
  split; [done|]. split; [done|]. split.
  { exists new. split; [done|]. split; [lia|]. intros -> ->.
    specialize (H1 (or_intror eq_refl)). split; [|done].
    cbn in Hflag. apply Hflag in H1. lia. }
  split.
  { unfold active. rewrite Hl, filter_app, length_app, filter_none.
    - cbn. etransitivity; [apply length_filter|]. lia.
    - intros x Hx Hox. unfold chan_open in Hox.
      rewrite Hext, lookup_app_l in Hox by (by apply Hlt).
      by eapply idle_loops_closed. }
  split.
  - intros Hne Hlock. destruct pc1; cbn in Hmu' |- *; unfold Lock, Unlock;
      rewrite ?Hmu', ?Hlock by done; cbn; by eauto.
  - intros Hne Hlock. rewrite orb_comm in Hmu'.
    destruct pc2; cbn in Hmu' |- *; unfold Lock, Unlock;
      rewrite ?Hmu', ?Hlock by done; cbn; by eauto.
Qed.

(** C7: In every reachable state the active loops (launched, signal not
    fired) are one while the running flag is set and none otherwise, so
    never more than one; a loop that has been stopped is not among them
    although it may not have returned yet.  [startMonitoring] with the
    flag set changes nothing; it tests and sets the flag with the mutex
    held: on a held mutex it waits without reading or writing, and run
    statement by statement it does what the call does.  Two starts in a
    row from a stopped viewer launch exactly one loop; so do two starts
    whose statements interleave in any order: the callers are never
    both between Lock and Unlock, they launch one loop at most, exactly
    one once both have returned, and none of their statements panics. *)
Theorem one_active_loop (m : Machine W) :
  reachable m ->
  length (active m) = (if running (p m) then 1 else 0)
  /\ length (active m) <= 1
  /\ (forall (a l : Z) (f : option nat),
        running (p m) = true -> startMonitoring a l f m = Done tt m)
  /\ (forall (a l : Z) (f : option nat) (m1 : Machine W),
        mu (p m1) = true -> startMonitoring a l f m1 = Blocked m1)
  /\ (forall (c c2 : StartArgs) (pc2 : StartPc),
        exists m1 : Machine W,
          startMonitoring (s_startAddress c) (s_length c) (s_updateFunc c) m
          = Done tt m1
          /\ two_run c c2 (replicate 7 true) (AtLock, pc2, m)
             = (Returned, pc2, m1))
  /\ (forall (a l : Z) (f : option nat) (a' l' : Z) (f' : option nat),
        running (p m) = false ->
        exists m1 : Machine W,
          startMonitoring a l f m = Done tt m1
          /\ startMonitoring a' l' f' m1 = Done tt m1
          /\ loops m1 = loops m ++ [mkLoop (length (chans m)) a l f false]
          /\ active m1 = [mkLoop (length (chans m)) a l f false])
  /\ (forall (c1 c2 : StartArgs) (sched : list bool) (pc1 pc2 : StartPc)
             (m' : Machine W),
        running (p m) = false ->
        two_run c1 c2 sched (AtLock, AtLock, m) = (pc1, pc2, m') ->
        in_guard pc1 && in_guard pc2 = false
        /\ mu (p m') = in_guard pc1 || in_guard pc2
        /\ (exists new : list Loop,
              loops m' = loops m ++ new /\ length new <= 1
              /\ (pc1 = Returned -> pc2 = Returned ->
                  length new = 1 /\ running (p m') = true))
        /\ length (active m') <= 1
        /\ (pc1 <> Returned -> (pc1 = AtLock -> in_guard pc2 = false) ->
            is_Some (start_step c1 pc1 m'))
        /\ (pc2 <> Returned -> (pc2 = AtLock -> in_guard pc1 = false) ->
            is_Some (start_step c2 pc2 m'))).
Proof.
  intros Hm. pose proof (reachable_inv m Hm) as Hinv.
  pose proof Hinv as (Hmu & _ & _ & _ & Hact & _).
  split; [exact Hact|].
  split; [rewrite Hact; destruct (running (p m)); lia|].
  split; [intros a l f Hr; by apply startMonitoring_running|].
  split; [intros a l f m1 Hheld; by apply startMonitoring_held|].
  split; [intros c c2 pc2; by apply start_alone|].
  split.
  - intros a l f a' l' f' Hr.
    destruct (start_idle_facts a l f m Hinv Hr)
      as (m1 & Hs & Hr1 & Hmu1 & _ & _ & _ & Hl & Ha).
    exists m1. split; [done|]. split; [by apply startMonitoring_running|].
    done.
  - intros c1 c2 sched pc1 pc2 m' Hr Hrun. by eapply two_starts.
Qed.


End StartInterleaving.

Section StartScenarios.
Import Viewer.

(** The bound does not extend to the loops that have not returned:
    after start, stop, start, two loops are running.  The first one has
    been cancelled and has not returned; if its select takes the ticker
    it reads and calls the update function once more. *)
Lemma two_loops_running :
  reachable (sim_polling true true)
  /\ running_loops (sim_polling true true)
     = [mkLoop 1 100 2 (Some 0%nat) false; mkLoop 2 2 9 None false]
  /\ chans (sim_polling true true) !! 1%nat = Some true
  /\ trace (state_of (loop_turn 0 RecvTick (sim_polling true true)))
     = trace (sim_polling true true)
       ++ [EvReadDB 1 100 2; EvUpdate 0 (replicate 16 false)]
  /\ ~ (forall m : Machine SimPLC,
          reachable m -> (length (running_loops m) <= 1)%nat).
Proof.
  split; [apply sim_polling_reachable|].
  split; [vm_compute; reflexivity|].
  split; [vm_compute; reflexivity|].
  split; [vm_compute; reflexivity|].
  intros Hall. specialize (Hall _ (sim_polling_reachable true true)).
  vm_compute in Hall. lia.
Qed.

(** Two starts interleaved on a new viewer launch one loop. *)
Lemma one_active_loop_witness :
  reachable (sim_new true true)
  /\ running (p (sim_new true true)) = false
  /\ exists m' : Machine SimPLC,
       two_run (mkStartArgs 100 2 (Some 0%nat)) (mkStartArgs 2 9 None)
               [false; true; false; false; true; false; false; false;
                false; true; true; true]
               (AtLock, AtLock, sim_new true true)
       = (Returned, Returned, m')
       /\ length (loops m') = 1%nat
       /\ running (p m') = true.
Proof.
  assert (reachable (sim_new true true)) as Hm by apply reach_new.
  assert (running (p (sim_new true true)) = false) as Hr by reflexivity.
  split; [exact Hm|]. split; [exact Hr|].
  eexists. split; [vm_compute; reflexivity|].
  destruct (one_active_loop (sim_new true true) Hm)
    as (_ & _ & _ & _ & _ & _ & Htwo).
  destruct (Htwo (mkStartArgs 100 2 (Some 0%nat)) (mkStartArgs 2 9 None)
              [false; true; false; false; true; false; false; false;
               false; true; true; true]
              Returned Returned _ Hr ltac:(vm_compute; reflexivity))
    as (_ & _ & (new & Hl & _ & Hboth) & _).
  destruct (Hboth eq_refl eq_refl) as [Hn Hrun].
  split; [|exact Hrun].
  rewrite Hl, length_app, Hn. reflexivity.
Defined.

End StartScenarios.
